(** * Discord adapter messages: segments, tokenizer, serializer

    A shallow embedding of [nonebot/adapters/discord/message.py] and the
    properties of its text tokenizer ([Message._construct]), its text view
    ([Message.extract_content]), the inbound adapter
    ([Message.from_guild_message]), the outbound serializer
    ([parse_message]) and the segment factories. *)

From Stdlib Require Import String Ascii Bool Arith ZArith NArith Lia.
From Stdlib Require Import DecimalString DecimalPos DecimalN DecimalZ.
From Stdlib Require Import List.
Import ListNotations.

Set Implicit Arguments.
Set Warnings "-register-all".
Local Open Scope list_scope.

(** ** Python values used by the module *)

(** A Python [str] is a sequence of characters.  The characters of the model
    are the code points below 256, held in [ascii]; every operation of the
    module on strings works character by character. *)
Definition str := list ascii.

Definition py (s : string) : str := list_ascii_of_string s.
Arguments py s%_string.

Definition bytes := list Byte.byte.

Fixpoint str_eqb (a b : str) : bool :=
  match a, b with
  | [], [] => true
  | x :: a', y :: b' => Ascii.eqb x y && str_eqb a' b'
  | _, _ => false
  end.

(** [x in (a, b, ...)] on strings. *)
Definition str_in (x : str) (l : list str) : bool := existsb (str_eqb x) l.

(** [s[a:b]] for [0 <= a], [0 <= b]. *)
Definition slice (s : str) (a b : nat) : str := firstn (b - a) (skipn a s).

(** [s.startswith(p)]; the regex engine uses it to test a literal. *)
Fixpoint startswith (p s : str) : bool :=
  match p, s with
  | [], _ => true
  | x :: p', y :: s' => Ascii.eqb x y && startswith p' s'
  | _ :: _, [] => false
  end.

(** [s.split(sep)] for a one-character separator: one more part than there
    are separators, empty parts kept. *)
Fixpoint split (sep : ascii) (s : str) : list str :=
  match s with
  | [] => [[]]
  | c :: s' =>
      if Ascii.eqb c sep then [] :: split sep s'
      else match split sep s' with
           | h :: t => (c :: h) :: t
           | [] => [[c]]
           end
  end.

(** The characters [int()] reads as decimal digits: ['0'] to ['9']. *)
Definition is_decimal_char (c : ascii) : bool :=
  let n := nat_of_ascii c in (48 <=? n) && (n <=? 57).

(** [str.isdigit] on one character.  Below code point 256 the characters with
    Unicode property Numeric_Type=Decimal or Digit are ['0'..'9'] and the
    superscripts U+00B2, U+00B3 and U+00B9. *)
Definition isdigit_char (c : ascii) : bool :=
  let n := nat_of_ascii c in
  is_decimal_char c || (n =? 178) || (n =? 179) || (n =? 185).

(** [s.isdigit()]: at least one character and all of them digits. *)
Definition isdigit (s : str) : bool :=
  match s with
  | [] => false
  | _ => forallb isdigit_char s
  end.

(** Exceptions raised by the module or by the calls it makes. *)
Inductive exn : Type :=
| ValueError
| TypeError (msg : str).

Inductive result (A : Type) : Type :=
| Ok (a : A)
| Raise (e : exn).
Arguments Ok {A} a.
Arguments Raise {A} e.

Definition bind {A B} (r : result A) (k : A -> result B) : result B :=
  match r with
  | Ok a => k a
  | Raise e => Raise e
  end.

Notation "x <- r ;; k" := (bind r (fun x => k))
  (at level 61, r at next level, right associativity).

(** Consuming a generator of fallible items: the first exception wins. *)
Fixpoint mapM {A B} (f : A -> result B) (l : list A) : result (list B) :=
  match l with
  | [] => Ok []
  | a :: l' => b <- f a ;; bs <- mapM f l' ;; Ok (b :: bs)
  end.

(** [int(s)] on a string for which [s.isdigit()] holds, the only strings the
    tokenizer passes to it: the decimal value when every character is a
    decimal digit, [ValueError] otherwise (a superscript digit satisfies
    [isdigit] and is refused by [int]).  The interpreter's configurable limit
    on the number of digits is left out. *)
Definition int (s : str) : result Z :=
  match NilEmpty.uint_of_string (string_of_list_ascii s) with
  | Some d => Ok (Z.of_N (N.of_uint d))
  | None => Raise ValueError
  end.

(** [f"{n}"] for an [int]: decimal digits, with a leading minus sign for a
    negative number. *)
Definition format_int (z : Z) : str :=
  list_ascii_of_string (NilZero.string_of_int (Z.to_int z)).

(** A field that may be [UNSET]. *)
Inductive Missing (A : Type) : Type :=
| UNSET
| Present (a : A).
Arguments UNSET {A}.
Arguments Present {A} a.

(** ** The imported interface

    [message.py] imports its schema types from [.api] and [unescape] from
    [.utils]; neither module is part of the sources at hand.  The model takes
    what it uses of them as an interface. *)

Inductive ComponentType : Type :=
| ComponentType_ActionRow
| ComponentType_Button
| ComponentType_SelectMenu
| ComponentType_TextInput.

Class DiscordApi : Type := {
  (** numeric identifier; [Snowflake_of s] is the call [Snowflake(s)] on a
      [str], [format_Snowflake i] is [f"{i}"] *)
  Snowflake : Type;
  Snowflake_of : str -> result Snowflake;
  format_Snowflake : Snowflake -> str;
  (** timestamp-style enumeration; [TimeStampStyle_of v] is the lookup by
      value [TimeStampStyle(v)], [TimeStampStyle_value] is [.value] *)
  TimeStampStyle : Type;
  TimeStampStyle_of : str -> result TimeStampStyle;
  TimeStampStyle_value : TimeStampStyle -> str;
  (** opaque schema objects and the fields the debug forms print *)
  Embed : Type;
  format_Embed_type : Embed -> str;
  MessageReference : Type;
  format_message_id : MessageReference -> str;
  ButtonData : Type;
  SelectMenuData : Type;
  TextInputData : Type;
  format_ComponentType : ComponentType -> str;
  (** [.utils.unescape] *)
  unescape : str -> str
}.

Section Model.

Context {api : DiscordApi}.

(** ** Schema objects whose shape [message.py] fixes by use *)

(** [File(filename=..., content=...)] *)
Record File : Type := mkFile {
  File_filename : str;
  File_content : bytes
}.

(** [AttachmentSend(filename=..., description=...)] *)
Record AttachmentSend : Type := mkAttachmentSend {
  AttachmentSend_filename : str;
  AttachmentSend_description : option str
}.

(** [Component]: the union the factory [component] dispatches on with
    [isinstance]. *)
Inductive Component : Type :=
| ActionRow (components : list Component)
| Button (b : ButtonData)
| SelectMenu (s : SelectMenuData)
| TextInput (t : TextInputData).

Definition Component_type (c : Component) : ComponentType :=
  match c with
  | ActionRow _ => ComponentType_ActionRow
  | Button _ => ComponentType_Button
  | SelectMenu _ => ComponentType_SelectMenu
  | TextInput _ => ComponentType_TextInput
  end.

(** ** Segments *)

(** One constructor per segment class, carrying the entries of its [data]
    dictionary.  Equality of segments is equality of [type] and [data], as
    for the dataclasses of the source. *)
Inductive MessageSegment : Type :=
| AttachmentSegment (attachment : AttachmentSend) (file : option File)
| StickerSegment (id : Snowflake)
| EmbedSegment (embed : Embed)
| ComponentSegment (component : Component)
| CustomEmojiSegment (name id : str) (animated : option bool)
| MentionUserSegment (user_id : Snowflake)
| MentionRoleSegment (role_id : Snowflake)
| MentionChannelSegment (channel_id : Snowflake)
| MentionEveryoneSegment
| TextSegment (text : str)
| TimestampSegment (timestamp : Z) (style : option TimeStampStyle)
| ReferenceSegment (reference : MessageReference).

(** [seg.type], the key of the segment in [SEGMENT_TYPE_MAP]. *)
Definition type (seg : MessageSegment) : str :=
  match seg with
  | AttachmentSegment _ _ => py "attachment"
  | StickerSegment _ => py "sticker"
  | EmbedSegment _ => py "embed"
  | ComponentSegment _ => py "component"
  | CustomEmojiSegment _ _ _ => py "custom_emoji"
  | MentionUserSegment _ => py "mention_user"
  | MentionRoleSegment _ => py "mention_role"
  | MentionChannelSegment _ => py "mention_channel"
  | MentionEveryoneSegment => py "mention_everyone"
  | TextSegment _ => py "text"
  | TimestampSegment _ _ => py "timestamp"
  | ReferenceSegment _ => py "reference"
  end.

(** A [Message] is the list of its segments. *)
Definition Message := list MessageSegment.

(** *** Factories of [MessageSegment] *)

(** The first argument of [MessageSegment.attachment], by run-time type. *)
Inductive attachment_source : Type :=
| source_str (s : str)
| source_File (f : File)
| source_AttachmentSend (a : AttachmentSend)
| source_other.

Definition attachment (file : attachment_source) (description : option str)
    (content : option bytes) : result MessageSegment :=
  sel <- match file with
         | source_str s => Ok (s, description, content)
         | source_File f => Ok (File_filename f, description, Some (File_content f))
         | source_AttachmentSend a =>
             Ok (AttachmentSend_filename a, AttachmentSend_description a, content)
         | source_other => Raise (TypeError (py "file must be str, File or AttachmentSend"))
         end ;;
  let '(_filename, _description, _content) := sel in
  match _content with
  | None => Ok (AttachmentSegment (mkAttachmentSend _filename _description) None)
  | Some c =>
      Ok (AttachmentSegment (mkAttachmentSend _filename _description)
            (Some (mkFile _filename c)))
  end.

Definition sticker (sticker_id : Snowflake) : MessageSegment := StickerSegment sticker_id.

Definition embed (e : Embed) : MessageSegment := EmbedSegment e.

Definition component (c : Component) : MessageSegment :=
  let component_ :=
    match c with
    | Button _ | SelectMenu _ => ActionRow [c]
    | _ => c
    end in
  ComponentSegment component_.

Definition custom_emoji (name emoji_id : str) (animated : option bool) : MessageSegment :=
  CustomEmojiSegment name emoji_id animated.

(** The id factories call [Snowflake(...)] on their argument once more; the
    argument here is already a [Snowflake]. *)
Definition mention_user (user_id : Snowflake) : MessageSegment := MentionUserSegment user_id.
Definition mention_role (role_id : Snowflake) : MessageSegment := MentionRoleSegment role_id.
Definition mention_channel (channel_id : Snowflake) : MessageSegment :=
  MentionChannelSegment channel_id.
Definition mention_everyone : MessageSegment := MentionEveryoneSegment.
Definition text (content : str) : MessageSegment := TextSegment content.
(** [timestamp] on an [int]; a [datetime] is first converted to one. *)
Definition timestamp (t : Z) (style : option TimeStampStyle) : MessageSegment :=
  TimestampSegment t style.

(** *** [__str__] of each segment class *)

Definition truthy (b : option bool) : bool :=
  match b with Some true => true | _ => false end.

Definition __str__ (seg : MessageSegment) : str :=
  match seg with
  | StickerSegment id => py "<Sticker:" ++ format_Snowflake id ++ py ">"
  | ComponentSegment c =>
      py "<Component:" ++ format_ComponentType (Component_type c) ++ py ">"
  | CustomEmojiSegment name id animated =>
      if truthy animated then py "<a:" ++ name ++ py ":" ++ id ++ py ">"
      else py "<:" ++ name ++ py ":" ++ id ++ py ">"
  | MentionUserSegment user_id => py "<@" ++ format_Snowflake user_id ++ py ">"
  | MentionChannelSegment channel_id => py "<#" ++ format_Snowflake channel_id ++ py ">"
  | MentionRoleSegment role_id => py "<@&" ++ format_Snowflake role_id ++ py ">"
  | MentionEveryoneSegment => py "@everyone"
  | TimestampSegment t style =>
      py "<t:" ++ format_int t
      ++ match style with
         | Some st => py ":" ++ TimeStampStyle_value st
         | None => py ""
         end
      ++ py ">"
  | TextSegment t => t
  | EmbedSegment e => py "<Embed:" ++ format_Embed_type e ++ py ">"
  | AttachmentSegment a _ => py "<Attachment:" ++ AttachmentSend_filename a ++ py ">"
  | ReferenceSegment r => py "<Reference:" ++ format_message_id r ++ py ">"
  end.

(** ** The tokenizer: [Message._construct] *)

(** *** The regular expression
    [<(?P<type>(@!|@&|@|#|/|:|a:|t:))(?P<param>[^<]+?)>] *)

(** The alternatives of the group [type], in the order the engine tries
    them. *)
Definition type_alternatives : list str :=
  [py "@!"; py "@&"; py "@"; py "#"; py "/"; py ":"; py "a:"; py "t:"].

(** The rest of [[^<]+?] once it holds a character, followed by [>]: the
    lazy quantifier stops at the first [>], and cannot step over a [<]. *)
Fixpoint lazy_rest (s : str) : option str :=
  match s with
  | [] => None
  | c :: s' =>
      if Ascii.eqb c ">" then Some []
      else if Ascii.eqb c "<" then None
      else option_map (cons c) (lazy_rest s')
  end.

(** [(?P<param>[^<]+?)>] at the head of [s]: one character other than [<],
    then [lazy_rest]. *)
Definition match_param (s : str) : option str :=
  match s with
  | [] => None
  | c :: s' => if Ascii.eqb c "<" then None else option_map (cons c) (lazy_rest s')
  end.

(** The alternation with backtracking: the first alternative after which
    the rest of the pattern matches. *)
Fixpoint match_alternatives (alts : list str) (s : str) : option (str * str) :=
  match alts with
  | [] => None
  | ty :: alts' =>
      match (if startswith ty s then match_param (skipn (length ty) s) else None) with
      | Some param => Some (ty, param)
      | None => match_alternatives alts' s
      end
  end.

(** The whole pattern at the head of [s]: the groups [type] and [param]. *)
Definition match_here (s : str) : option (str * str) :=
  match s with
  | c :: s' => if Ascii.eqb c "<" then match_alternatives type_alternatives s' else None
  | [] => None
  end.

(** A match object: [pos], [start()], [end()] and the two named groups. *)
Record Match : Type := mkMatch {
  Match_pos : nat;
  Match_start : nat;
  Match_end : nat;
  Match_type : str;
  Match_param : str
}.

(** The text the pattern consumes: [<], the type, the parameter, [>]. *)
Definition markup (ty param : str) : str := py "<" ++ ty ++ param ++ py ">".

(** [embed.group()] *)
Definition group (embed : Match) : str := markup (Match_type embed) (Match_param embed).

(** [re.finditer]: the leftmost match from the current position, then on
    from its end.  [scan skip i s] reads the text [s] that starts at index
    [i]; [skip] counts the characters of [s] that still belong to the match
    just found. *)
Fixpoint scan (skip i : nat) (s : str) : list Match :=
  match s with
  | [] => []
  | _ :: s' =>
      match skip with
      | S k => scan k (S i) s'
      | O =>
          match match_here s with
          | Some (ty, param) =>
              let n := 2 + length ty + length param in
              mkMatch 0 i (i + n) ty param :: scan (n - 1) (S i) s'
          | None => scan 0 (S i) s'
          end
      end
  end.

Definition finditer (msg : str) : list Match := scan 0 0 msg.

(** *** The loop of [_construct] *)

(** [if content := ...: yield MessageSegment.text(unescape(content))] *)
Definition yield_text (content : str) : list MessageSegment :=
  match content with
  | [] => []
  | _ => [text (unescape content)]
  end.

(** The segments one match yields: the [if]/[elif] chain on
    [embed.group("type")]. *)
Definition yield_match (embed : Match) : result (list MessageSegment) :=
  let ty := Match_type embed in
  let param := Match_param embed in
  if str_in ty [py "@!"; py "@"] then
    id <- Snowflake_of param ;; Ok [mention_user id]
  else if str_eqb ty (py "@&") then
    id <- Snowflake_of param ;; Ok [mention_role id]
  else if str_eqb ty (py "#") then
    id <- Snowflake_of param ;; Ok [mention_channel id]
  else if str_eqb ty (py "/") then
    Ok []
  else if str_in ty [py ":"; py "a:"] then
    let cut := split ":" param in
    if length cut =? 2 then
      Ok [custom_emoji (nth 0 cut []) (nth 1 cut []) (Some (str_eqb ty (py "a:")))]
    else Ok [text (unescape (group embed))]
  else
    let cut := split ":" param in
    if (length cut =? 2) && isdigit (nth 0 cut []) then
      t <- int (nth 0 cut []) ;;
      style <- TimeStampStyle_of (nth 1 cut []) ;;
      Ok [timestamp t (Some style)]
    else if isdigit (group embed) then
      t <- int (group embed) ;; Ok [timestamp t None]
    else Ok [text (unescape (group embed))].

(** The [for] loop over the matches, with its variable [text_begin], and the
    text after the last match. *)
Fixpoint construct_loop (msg : str) (text_begin : nat) (matches : list Match)
    : result (list MessageSegment) :=
  match matches with
  | [] => Ok (yield_text (slice msg text_begin (length msg)))
  | embed :: matches' =>
      let content := slice msg text_begin (Match_pos embed + Match_start embed) in
      segs <- yield_match embed ;;
      rest <- construct_loop msg (Match_pos embed + Match_end embed) matches' ;;
      Ok (yield_text content ++ segs ++ rest)
  end.

(** [Message._construct(msg)], consumed to the end. *)
Definition _construct (msg : str) : result (list MessageSegment) :=
  construct_loop msg 0 (finditer msg).

(** ** The container: what [Message] inherits and overrides *)

(** What [Message(...)], [+] and [+=] accept. *)
Inductive operand : Type :=
| operand_str (s : str)
| operand_segment (seg : MessageSegment)
| operand_iterable (segs : list MessageSegment).

(** [Message(message)] of the base class: a string is tokenized, a segment
    appended, an iterable extended from. *)
Definition Message_init (message : operand) : result Message :=
  match message with
  | operand_str s => _construct s
  | operand_segment seg => Ok [seg]
  | operand_iterable segs => Ok segs
  end.

(** [BaseMessage.__iadd__] on a copy, that is [BaseMessage.__add__]. *)
Definition super__add__ (self : Message) (other : operand) : result Message :=
  match other with
  | operand_str s => segs <- _construct s ;; Ok (self ++ segs)
  | operand_segment seg => Ok (self ++ [seg])
  | operand_iterable segs => Ok (self ++ segs)
  end.

(** [MessageSegment.text(other) if isinstance(other, str) else other] *)
Definition text_if_str (other : operand) : operand :=
  match other with
  | operand_str s => operand_segment (text s)
  | _ => other
  end.

Definition __add__ (self : Message) (other : operand) : result Message :=
  super__add__ self (text_if_str other).

(** [BaseMessage.__radd__]: [result = Message(other); return result + self],
    where [+] is the [__add__] above. *)
Definition super__radd__ (self : Message) (other : operand) : result Message :=
  result <- Message_init other ;; __add__ result (operand_iterable self).

Definition __radd__ (self : Message) (other : operand) : result Message :=
  super__radd__ self (text_if_str other).

(** [message[kind]] of the base class: the segments of that type. *)
Definition getitem (self : Message) (kind : str) : Message :=
  filter (fun seg => str_eqb (type seg) kind) self.

Definition extract_content (self : Message) : str :=
  concat
    (map __str__
       (filter
          (fun seg =>
             str_in (type seg)
               [py "text"; py "custom_emoji"; py "mention_user"; py "mention_role";
                py "mention_everyone"; py "mention_channel"; py "timestamp"])
          self)).

(** ** The inbound adapter: [Message.from_guild_message] *)

(** A received attachment record, as far as the adapter reads it. *)
Record Attachment : Type := mkAttachment {
  Attachment_filename : str;
  Attachment_description : Missing str
}.

(** The received message event [MessageGet], as far as the adapter reads
    it. *)
Record MessageGet : Type := mkMessageGet {
  MessageGet_mention_everyone : bool;
  MessageGet_content : option str;
  MessageGet_attachments : list Attachment;
  MessageGet_embeds : list Embed;
  MessageGet_components : list Component
}.

(** [attachment.description if isinstance(attachment.description, str) else None] *)
Definition description_if_str (d : Missing str) : option str :=
  match d with
  | Present s => Some s
  | UNSET => None
  end.

Definition nonempty {A} (l : list A) : bool :=
  match l with [] => false | _ => true end.

Definition from_guild_message (message : MessageGet) : result Message :=
  let msg : Message := [] in
  let msg :=
    if MessageGet_mention_everyone message then msg ++ [mention_everyone] else msg in
  msg <- match MessageGet_content message with
         | Some (c :: s) => segs <- Message_init (operand_str (c :: s)) ;; Ok (msg ++ segs)
         | _ => Ok msg
         end ;;
  msg <- (if nonempty (MessageGet_attachments message) then
            segs <- mapM
                      (fun a =>
                         attachment
                           (source_AttachmentSend
                              (mkAttachmentSend (Attachment_filename a)
                                 (description_if_str (Attachment_description a))))
                           None None)
                      (MessageGet_attachments message) ;;
            Ok (msg ++ segs)
          else Ok msg) ;;
  let msg :=
    if nonempty (MessageGet_embeds message)
    then msg ++ map embed (MessageGet_embeds message) else msg in
  let msg :=
    if nonempty (MessageGet_components message)
    then msg ++ map component (MessageGet_components message) else msg in
  Ok msg.

(** ** The outbound serializer: [parse_message] *)

(** [seg.data[key]] for the keys the serializer reads; the segments it reads
    them from were selected by type, so the key is there. *)
Definition data_embed (seg : MessageSegment) : option Embed :=
  match seg with EmbedSegment e => Some e | _ => None end.
Definition data_reference (seg : MessageSegment) : option MessageReference :=
  match seg with ReferenceSegment r => Some r | _ => None end.
Definition data_component (seg : MessageSegment) : option Component :=
  match seg with ComponentSegment c => Some c | _ => None end.
Definition data_id (seg : MessageSegment) : option Snowflake :=
  match seg with StickerSegment i => Some i | _ => None end.
Definition data_attachment (seg : MessageSegment) : option AttachmentSend :=
  match seg with AttachmentSegment a _ => Some a | _ => None end.
Definition data_file (seg : MessageSegment) : option File :=
  match seg with AttachmentSegment _ f => f | _ => None end.

(** [[f(x) for x in l]] where [f] reads a key, and
    [[f(x) for x in l if f(x) is not None]]. *)
Fixpoint comprehension {A B} (f : A -> option B) (l : list A) : list B :=
  match l with
  | [] => []
  | a :: l' =>
      match f a with
      | Some b => b :: comprehension f l'
      | None => comprehension f l'
      end
  end.

(** [x or None] on a list. *)
Definition or_None {A} (l : list A) : option (list A) :=
  match l with [] => None | _ => Some l end.

(** The returned dictionary: a key is present exactly when its field is
    [Some] (the final comprehension drops the [None] values). *)
Record payload : Type := mkPayload {
  content : option str;
  embeds : option (list Embed);
  message_reference : option MessageReference;
  components : option (list Component);
  sticker_ids : option (list Snowflake);
  files : option (list File);
  attachments : option (list AttachmentSend)
}.

(** What [parse_message] accepts. *)
Inductive parse_input : Type :=
| input_Message (m : Message)
| input_segment (seg : MessageSegment)
| input_str (s : str).

Definition parse_message (message : parse_input) : payload :=
  let message : Message :=
    match message with
    | input_str s => [text s]
    | input_segment seg => [seg]
    | input_Message m => m
    end in
  let content := or_None (extract_content message) in
  let embeds :=
    match or_None (getitem message (py "embed")) with
    | Some segs => Some (comprehension data_embed segs)
    | None => None
    end in
  let reference :=
    match or_None (getitem message (py "reference")) with
    | Some segs =>
        match nth_error segs (length segs - 1) with
        | Some seg => data_reference seg
        | None => None
        end
    | None => None
    end in
  let components :=
    match or_None (getitem message (py "component")) with
    | Some segs => Some (comprehension data_component segs)
    | None => None
    end in
  let sticker_ids :=
    match or_None (getitem message (py "sticker")) with
    | Some segs => Some (comprehension data_id segs)
    | None => None
    end in
  let '(attachments, files) :=
    match or_None (getitem message (py "attachment")) with
    | Some attachments_segment =>
        (Some (comprehension data_attachment attachments_segment),
         Some (comprehension data_file attachments_segment))
    | None => (None, None)
    end in
  mkPayload content embeds reference components sticker_ids files attachments.

(** ** Notions used by the statements *)

(** A bare interactive element: a button or a select menu outside a row. *)
Definition is_bare (c : Component) : bool :=
  match c with
  | Button _ | SelectMenu _ => true
  | ActionRow _ | TextInput _ => false
  end.

(** The flattened text of a message as section 4.3 of the specification
    words it: the render forms of the textual kinds in order, the kinds
    embed, component, attachment, sticker and reference skipped. *)
Fixpoint flattened_text (m : Message) : str :=
  match m with
  | [] => []
  | seg :: m' =>
      match seg with
      | EmbedSegment _ | ComponentSegment _ | AttachmentSegment _ _
      | StickerSegment _ | ReferenceSegment _ => flattened_text m'
      | TextSegment _ | CustomEmojiSegment _ _ _ | MentionUserSegment _
      | MentionRoleSegment _ | MentionEveryoneSegment | MentionChannelSegment _
      | TimestampSegment _ _ => __str__ seg ++ flattened_text m'
      end
  end.

(** [s.isdecimal()]: not empty, and only the digits ['0'] to ['9']. *)
Definition isdecimal (s : str) : bool :=
  match s with
  | [] => false
  | _ => forallb is_decimal_char s
  end.

(** No character of [s] is one of [chars]. *)
Definition free_of (chars : str) (s : str) : bool :=
  forallb (fun c => negb (existsb (Ascii.eqb c) chars)) s.

(** A match of custom-emoji form whose parameter is not two colon-separated
    parts, or of timestamp form whose first part is not all digits. *)
Definition malformed (embed : Match) : bool :=
  let cut := split ":" (Match_param embed) in
  (str_in (Match_type embed) [py ":"; py "a:"] && negb (length cut =? 2))
  || (str_eqb (Match_type embed) (py "t:") && negb (isdigit (nth 0 cut []))).

(** A match the tokenizer emits as literal text: of custom-emoji form with
    a parameter that is not two colon-separated parts, or of timestamp form
    with a first part that is not all digits or with three parts or more. *)
Definition falls_back (embed : Match) : bool :=
  let cut := split ":" (Match_param embed) in
  (str_in (Match_type embed) [py ":"; py "a:"] && negb (length cut =? 2))
  || (str_eqb (Match_type embed) (py "t:")
      && (negb (isdigit (nth 0 cut [])) || (3 <=? length cut))).


(** A parameter the pattern reads whole whatever follows its [>]: not
    empty, without [<], and without [>] after its first character (the lazy
    quantifier takes one character before it looks for the [>]). *)
Definition read_whole (p : str) : bool :=
  match p with
  | [] => false
  | c :: p' => negb (Ascii.eqb c "<") && free_of (py "<>") p'
  end.

(** An id whose printed form is read whole and converts back to the id. *)
Definition id_reads_back (i : Snowflake) : Prop :=
  read_whole (format_Snowflake i) = true
  /\ Snowflake_of (format_Snowflake i) = Ok i.

(** A text that is, as a whole, one markup that falls back. *)
Definition literal_markup (t : str) : Prop :=
  exists ty p,
    t = markup ty p /\ read_whole p = true
    /\ falls_back (mkMatch 0 0 (length t) ty p) = true.

(** A segment whose render form the tokenizer reads back as the segment.
    A text reads back when it is not empty, is left unchanged by [unescape]
    and either holds no match of the pattern or is, as a whole, one markup
    that falls back; the printed id of a user mention must not start with
    [!] or [&], which belong to other forms; a timestamp needs a style, and
    one whose value is not empty, as [if style] asks of a value that is a
    string. *)
Definition reads_back (seg : MessageSegment) : Prop :=
  match seg with
  | TextSegment t =>
      t <> [] /\ unescape t = t /\ (finditer t = [] \/ literal_markup t)
  | MentionUserSegment i =>
      id_reads_back i /\ free_of (py "!&") (firstn 1 (format_Snowflake i)) = true
  | MentionRoleSegment i | MentionChannelSegment i => id_reads_back i
  | CustomEmojiSegment name id animated =>
      animated <> None /\ free_of (py ":") name = true /\ free_of (py ":") id = true
      /\ read_whole (name ++ py ":" ++ id) = true
  | TimestampSegment t style =>
      (0 <= t)%Z /\
      exists st, style = Some st /\
                 TimeStampStyle_value st <> [] /\
                 free_of (py "<>:") (TimeStampStyle_value st) = true /\
                 TimeStampStyle_of (TimeStampStyle_value st) = Ok st
  | _ => False
  end.

Definition is_text (seg : MessageSegment) : bool := str_eqb (type seg) (py "text").

(** The kinds of section 8's round trip: text, the mentions, custom emoji
    and timestamp. *)
Definition is_textual (seg : MessageSegment) : bool :=
  match seg with
  | TextSegment _ | MentionUserSegment _ | MentionRoleSegment _ | MentionChannelSegment _
  | MentionEveryoneSegment | CustomEmojiSegment _ _ _ | TimestampSegment _ _ => true
  | _ => false
  end.

(** A text segment that holds no match of the pattern. *)
Definition is_plain_text (seg : MessageSegment) : bool :=
  match seg with
  | TextSegment t => match finditer t with [] => true | _ => false end
  | _ => false
  end.

(** No two text segments without a match in a row: the tokenizer would
    read them as one. *)
Fixpoint no_adjacent_plain_text (m : Message) : Prop :=
  match m with
  | [] => True
  | seg :: m' =>
      match m' with
      | seg' :: _ =>
          (is_plain_text seg && is_plain_text seg' = false) /\ no_adjacent_plain_text m'
      | [] => True
      end
  end.

End Model.

(** ** A sample instance of the interface *)

Module Sample.

(** Modelled from the spec: the timestamp-style enumeration of section 6.
    The specification does not list its members; the sample takes seven
    styles with one-letter values. *)
Inductive style : Type :=
| ShortTime | LongTime | ShortDate | LongDate | ShortDateTime | LongDateTime | RelativeTime.

(** Modelled from the spec: the value of a member of the enumeration. *)
Definition style_value (st : style) : str :=
  match st with
  | ShortTime => py "t"
  | LongTime => py "T"
  | ShortDate => py "d"
  | LongDate => py "D"
  | ShortDateTime => py "f"
  | LongDateTime => py "F"
  | RelativeTime => py "R"
  end.

(** Modelled from the spec: the lookup of a member by its value, which
    fails on a value no member has. *)
Definition style_of (v : str) : result style :=
  match find (fun st => str_eqb (style_value st) v)
          [ShortTime; LongTime; ShortDate; LongDate; ShortDateTime; LongDateTime;
           RelativeTime] with
  | Some st => Ok st
  | None => Raise ValueError
  end.

(** Modelled from the spec: the numeric identifier type of sections 3 and
    6, built from a decimal string. *)
Definition snowflake_of (s : str) : result N :=
  match s with
  | [] => Raise ValueError
  | _ =>
      if forallb is_decimal_char s then
        match NilEmpty.uint_of_string (string_of_list_ascii s) with
        | Some d => Ok (N.of_uint d)
        | None => Raise ValueError
        end
      else Raise ValueError
  end.

(** Modelled from the spec: an identifier printed as a decimal string. *)
Definition format_snowflake (i : N) : str :=
  list_ascii_of_string (NilZero.string_of_uint (N.to_uint i)).

(** Modelled from the spec: [unescape] of section 6, which reverses the
    escaping of the markup sentinel characters; here the removal of the
    backslash in front of one. *)
Fixpoint unescape_sentinels (s : str) : str :=
  match s with
  | c :: ((d :: _) as s') =>
      if Ascii.eqb c "\" && str_in [d] [py "<"; py ">"; py "@"; py "#"; py ":"; py "\"]
      then d :: match s' with _ :: s'' => unescape_sentinels s'' | [] => [] end
      else c :: unescape_sentinels s'
  | _ => s
  end.

End Sample.

(** Modelled from the spec: the schema types of [.api] and [unescape] of
    [.utils] are outside the sources at hand.  The instance takes ids as
    numbers written in decimal (section 3: ids are numeric identifiers, as
    decimal strings), the timestamp style as an enumeration looked up by
    value (section 6), the opaque objects as their printed field, and
    [unescape] as the removal of the escaping backslash (section 6).  It
    serves to run the model on concrete inputs. *)
Definition sample_api : DiscordApi := {|
  Snowflake := N;
  Snowflake_of := Sample.snowflake_of;
  format_Snowflake := Sample.format_snowflake;
  TimeStampStyle := Sample.style;
  TimeStampStyle_of := Sample.style_of;
  TimeStampStyle_value := Sample.style_value;
  Embed := str;
  format_Embed_type := fun e => e;
  MessageReference := N;
  format_message_id := Sample.format_snowflake;
  ButtonData := str;
  SelectMenuData := str;
  TextInputData := str;
  format_ComponentType := fun t =>
    match t with
    | ComponentType_ActionRow => py "1"
    | ComponentType_Button => py "2"
    | ComponentType_SelectMenu => py "3"
    | ComponentType_TextInput => py "4"
    end;
  unescape := Sample.unescape_sentinels
|}.

(** A message of the sample instance with every kind that reads back. *)
Definition sample_message : @Message sample_api :=
  [TextSegment (py "hi "); MentionUserSegment (42%N : @Snowflake sample_api);
   CustomEmojiSegment (py "smile") (py "7") (Some true); TextSegment (py "!");
   TimestampSegment 1700000000 (Some (Sample.RelativeTime : @TimeStampStyle sample_api));
   MentionRoleSegment (1%N : @Snowflake sample_api);
   MentionChannelSegment (2%N : @Snowflake sample_api);
   CustomEmojiSegment (py "") (py "") (Some false)].

(** A message of the sample instance whose texts hold [<]: in a
    comparison, in an unfinished markup, and as a markup that falls back. *)
Definition sample_literal_message : @Message sample_api :=
  [TextSegment (py "1 < 2, a<b "); MentionUserSegment (42%N : @Snowflake sample_api);
   TextSegment (py "<:bad>"); TextSegment (py " and "); TextSegment (py "<t:1:R:x>");
   CustomEmojiSegment (py ">s") (py "7") (Some false); TextSegment (py "tail <:x")].

(** A received event of the sample instance. *)
Definition sample_event : @MessageGet sample_api :=
  mkMessageGet true (Some (py "@everyone hi <@!42> </cmd>"))
    [mkAttachment (py "a.png") (Present (py "a picture")); mkAttachment (py "b.txt") UNSET]
    [py "rich" : @Embed sample_api]
    [Button (py "ok" : @ButtonData sample_api); TextInput (py "name" : @TextInputData sample_api)].

(** ** The factory [MessageSegment.reference] *)

(** What the factory uses of [.api] beyond the interface above: the values
    accepted where an id is expected ([SnowflakeType]) with their truth
    value, the call [Snowflake(x)] on one of them, and the constructor
    [MessageReference(message_id=..., channel_id=..., guild_id=...,
    fail_if_not_exists=...)]. *)
Class ReferenceApi {api : DiscordApi} : Type := {
  SnowflakeType : Type;
  SnowflakeType_bool : SnowflakeType -> bool;
  Snowflake_new : SnowflakeType -> result Snowflake;
  MessageReference_new :
    Missing Snowflake -> Missing Snowflake -> Missing Snowflake -> Missing bool ->
    result MessageReference
}.

Section Reference.

Context {api : DiscordApi} {rapi : ReferenceApi}.

(** The first argument of the factory, by run-time type. *)
Inductive reference_source : Type :=
| source_MessageReference (r : MessageReference)
| source_id (x : SnowflakeType).

(** [Snowflake(x) if x else UNSET] *)
Definition Snowflake_or_UNSET (x : option SnowflakeType) : result (Missing Snowflake) :=
  match x with
  | Some v => if SnowflakeType_bool v then i <- Snowflake_new v ;; Ok (Present i) else Ok UNSET
  | None => Ok UNSET
  end.

(** [fail_if_not_exists or UNSET] *)
Definition bool_or_UNSET (b : option bool) : Missing bool :=
  match b with
  | Some true => Present true
  | _ => UNSET
  end.

Definition reference (reference : reference_source) (channel_id guild_id : option SnowflakeType)
    (fail_if_not_exists : option bool) : result MessageSegment :=
  match reference with
  | source_MessageReference r => Ok (ReferenceSegment r)
  | source_id x =>
      message_id <- Snowflake_or_UNSET (Some x) ;;
      channel_id <- Snowflake_or_UNSET channel_id ;;
      guild_id <- Snowflake_or_UNSET guild_id ;;
      _reference <- MessageReference_new message_id channel_id guild_id
                      (bool_or_UNSET fail_if_not_exists) ;;
      Ok (ReferenceSegment _reference)
  end.

End Reference.

(** ** Validation: [SEGMENT_TYPE_MAP] and [MessageSegment._validate] *)

(** The segment classes. *)
Inductive segment_class : Type :=
| class_AttachmentSegment | class_StickerSegment | class_EmbedSegment
| class_ComponentSegment | class_CustomEmojiSegment | class_MentionUserSegment
| class_MentionRoleSegment | class_MentionChannelSegment | class_MentionEveryoneSegment
| class_TextSegment | class_TimestampSegment | class_ReferenceSegment.

Definition segment_class_eqb (a b : segment_class) : bool :=
  match a, b with
  | class_AttachmentSegment, class_AttachmentSegment
  | class_StickerSegment, class_StickerSegment
  | class_EmbedSegment, class_EmbedSegment
  | class_ComponentSegment, class_ComponentSegment
  | class_CustomEmojiSegment, class_CustomEmojiSegment
  | class_MentionUserSegment, class_MentionUserSegment
  | class_MentionRoleSegment, class_MentionRoleSegment
  | class_MentionChannelSegment, class_MentionChannelSegment
  | class_MentionEveryoneSegment, class_MentionEveryoneSegment
  | class_TextSegment, class_TextSegment
  | class_TimestampSegment, class_TimestampSegment
  | class_ReferenceSegment, class_ReferenceSegment => true
  | _, _ => false
  end.

(** [d.get(key)] on a dictionary with string keys, held as its items. *)
Fixpoint dict_get {V} (key : str) (d : list (str * V)) : option V :=
  match d with
  | [] => None
  | (k, v) :: d' => if str_eqb k key then Some v else dict_get key d'
  end.

Definition SEGMENT_TYPE_MAP : list (str * segment_class) :=
  [(py "attachment", class_AttachmentSegment);
   (py "sticker", class_StickerSegment);
   (py "embed", class_EmbedSegment);
   (py "component", class_ComponentSegment);
   (py "custom_emoji", class_CustomEmojiSegment);
   (py "mention_user", class_MentionUserSegment);
   (py "mention_role", class_MentionRoleSegment);
   (py "mention_channel", class_MentionChannelSegment);
   (py "mention_everyone", class_MentionEveryoneSegment);
   (py "text", class_TextSegment);
   (py "timestamp", class_TimestampSegment);
   (py "reference", class_ReferenceSegment)].

(** The class of a segment built by the factories. *)
Definition class_of {api : DiscordApi} (seg : MessageSegment) : segment_class :=
  match seg with
  | AttachmentSegment _ _ => class_AttachmentSegment
  | StickerSegment _ => class_StickerSegment
  | EmbedSegment _ => class_EmbedSegment
  | ComponentSegment _ => class_ComponentSegment
  | CustomEmojiSegment _ _ _ => class_CustomEmojiSegment
  | MentionUserSegment _ => class_MentionUserSegment
  | MentionRoleSegment _ => class_MentionRoleSegment
  | MentionChannelSegment _ => class_MentionChannelSegment
  | MentionEveryoneSegment => class_MentionEveryoneSegment
  | TextSegment _ => class_TextSegment
  | TimestampSegment _ _ => class_TimestampSegment
  | ReferenceSegment _ => class_ReferenceSegment
  end.

(** The type tag under which a class stands in [SEGMENT_TYPE_MAP]. *)
Definition tag_of (c : segment_class) : str :=
  match c with
  | class_AttachmentSegment => py "attachment"
  | class_StickerSegment => py "sticker"
  | class_EmbedSegment => py "embed"
  | class_ComponentSegment => py "component"
  | class_CustomEmojiSegment => py "custom_emoji"
  | class_MentionUserSegment => py "mention_user"
  | class_MentionRoleSegment => py "mention_role"
  | class_MentionChannelSegment => py "mention_channel"
  | class_MentionEveryoneSegment => py "mention_everyone"
  | class_TextSegment => py "text"
  | class_TimestampSegment => py "timestamp"
  | class_ReferenceSegment => py "reference"
  end.

(** The values [_validate] tells apart: a string, a dictionary with string
    keys, an instance of a segment class with its [type] and [data] (the
    segment classes are dataclasses with [eq], so their instances are
    unhashable), and any other value, hashable or not. *)
Inductive object : Type :=
| object_str (s : str)
| object_dict (items : list (str * object))
| object_segment (cls : segment_class) (type data : object)
| object_hashable (tag : nat)
| object_unhashable (tag : nat).

(** The class [_validate] is called on: [MessageSegment] or a subclass. *)
Inductive validating_class : Type :=
| MessageSegment_class
| subclass (c : segment_class).

(** The class of the exception raised. *)
Inductive exception_class : Type :=
| class_ValueError
| class_TypeError.

Inductive outcome (A : Type) : Type :=
| Returns (a : A)
| Raises (e : exception_class).
Arguments Returns {A} a.
Arguments Raises {A} e.

Section Validate.

(** [type_validate_python(segment_type, value)], from [nonebot.compat]. *)
Variable type_validate_python : segment_class -> object -> outcome object.

(** [isinstance(value, cls)] *)
Definition isinstance (value : object) (cls : validating_class) : bool :=
  match value, cls with
  | object_segment _ _ _, MessageSegment_class => true
  | object_segment c _ _, subclass c' => segment_class_eqb c c'
  | _, _ => false
  end.

(** [MessageSegment._validate(cls, value)] *)
Definition _validate (cls : validating_class) (value : object) : outcome object :=
  if isinstance value cls then Returns value
  else
    match value with
    | object_segment _ _ _ => Raises class_ValueError
    | object_dict items =>
        match dict_get (py "type") items with
        | None => Raises class_ValueError
        | Some _type =>
            match _type with
            | object_str key =>
                match dict_get key SEGMENT_TYPE_MAP with
                | None => Raises class_ValueError
                | Some segment_type =>
                    match cls with
                    | MessageSegment_class => type_validate_python segment_type value
                    | subclass c =>
                        if segment_class_eqb c segment_type then
                          Returns
                            (object_segment segment_type _type
                               match dict_get (py "data") items with
                               | Some data => data
                               | None => object_dict []
                               end)
                        else Raises class_ValueError
                    end
                end
            | object_hashable _ => Raises class_ValueError
            | object_dict _ | object_segment _ _ _ | object_unhashable _ =>
                Raises class_TypeError
            end
        end
    | _ => Raises class_ValueError
    end.

End Validate.

(** ** Further notions used by the statements *)

Section Notions.

Context {api : DiscordApi}.

(** What a segment of the tokenizer looks like: text, a mention of a user,
    role or channel, a custom emoji with its flag set, or a timestamp with
    a style and seconds not below zero. *)
Definition tokenizer_kind (seg : MessageSegment) : bool :=
  match seg with
  | TextSegment _ | MentionUserSegment _ | MentionRoleSegment _
  | MentionChannelSegment _ => true
  | CustomEmojiSegment _ _ (Some _) => true
  | TimestampSegment t (Some _) => (0 <=? t)%Z
  | _ => false
  end.

(** A match found [d] characters further in a longer text. *)
Definition shift (d : nat) (embed : Match) : Match :=
  mkMatch (Match_pos embed) (d + Match_start embed) (d + Match_end embed)
    (Match_type embed) (Match_param embed).

(** Matches that follow one another from index [i] on within a text of
    length [n]: each starts at or after the end of the one before, is not
    empty and ends within the text. *)
Fixpoint spans_from (i n : nat) (matches : list Match) : Prop :=
  match matches with
  | [] => True
  | embed :: matches' =>
      i <= Match_start embed /\ Match_start embed < Match_end embed
      /\ Match_end embed <= n /\ spans_from (Match_end embed) n matches'
  end.

(** A match of custom-emoji form, or a malformed one. *)
Definition emoji_or_malformed (embed : Match) : bool :=
  str_in (Match_type embed) [py ":"; py "a:"] || malformed embed.

(** The flattened text an operand of [+] stands for: a string stands for
    itself. *)
Definition operand_text (other : operand) : str :=
  match other with
  | operand_str s => s
  | operand_segment seg => extract_content [seg]
  | operand_iterable segs => extract_content segs
  end.

(** The row a received component is stored in. *)
Definition in_row (c : Component) : Component := if is_bare c then ActionRow [c] else c.

(** The metadata kept of a received attachment. *)
Definition metadata (a : Attachment) : AttachmentSend :=
  mkAttachmentSend (Attachment_filename a) (description_if_str (Attachment_description a)).

(** The payload with no key but [content]. *)
Definition content_only (c : option str) : payload :=
  mkPayload c None None None None None None.

(** A reference segment. *)
Definition is_reference (seg : MessageSegment) : bool :=
  match seg with
  | ReferenceSegment _ => true
  | _ => false
  end.

(** The metadata and the file of every attachment segment of a message, in
    order. *)
Fixpoint attachment_entries (m : Message) : list (AttachmentSend * option File) :=
  match m with
  | [] => []
  | AttachmentSegment a f :: m' => (a, f) :: attachment_entries m'
  | _ :: m' => attachment_entries m'
  end.

(** The files among the entries, in order. *)
Fixpoint entry_files (entries : list (AttachmentSend * option File)) : list File :=
  match entries with
  | [] => []
  | (_, Some f) :: entries' => f :: entry_files entries'
  | (_, None) :: entries' => entry_files entries'
  end.

End Notions.

(** * Properties *)

Section Properties.

Context {api : DiscordApi}.

(** ** Strings *)

Lemma str_eqb_eq (a b : str) : str_eqb a b = true <-> a = b.
Proof.
  revert b; induction a as [|x a IH]; intros [|y b]; simpl; split; intro H;
    try reflexivity; try discriminate.
  - apply andb_true_iff in H as [Hx Hab].
    apply Ascii.eqb_eq in Hx. apply IH in Hab. now subst.
  - injection H as -> ->. rewrite Ascii.eqb_refl. simpl. now apply IH.
Qed.

Lemma str_eqb_refl (a : str) : str_eqb a a = true.
Proof. now apply str_eqb_eq. Qed.

Lemma free_of_cons (chars : str) (c : ascii) (s : str) :
  free_of chars (c :: s) = negb (existsb (Ascii.eqb c) chars) && free_of chars s.
Proof. reflexivity. Qed.

Lemma free_of_app (chars a b : str) :
  free_of chars (a ++ b) = free_of chars a && free_of chars b.
Proof. apply forallb_app. Qed.

Lemma free_of_incl (chars chars' s : str) :
  (forall c, existsb (Ascii.eqb c) chars' = true -> existsb (Ascii.eqb c) chars = true) ->
  free_of chars s = true -> free_of chars' s = true.
Proof.
  intros Hincl. induction s as [|c s IH]; [reflexivity|].
  rewrite !free_of_cons, !andb_true_iff, !negb_true_iff.
  intros [Hc Hs]. split; [|now apply IH].
  destruct (existsb (Ascii.eqb c) chars') eqn:E; [|reflexivity].
  apply Hincl in E. congruence.
Qed.

(** The three characters that delimit markup. *)
Lemma free_of_markup_lt (s : str) : free_of (py "<>:") s = true -> free_of (py "<") s = true.
Proof.
  apply free_of_incl. intro c. simpl. rewrite !orb_false_r. now intros ->.
Qed.

Lemma free_of_markup_angle (s : str) :
  free_of (py "<>:") s = true -> free_of (py "<>") s = true.
Proof.
  apply free_of_incl. intro c. simpl. rewrite !orb_false_r.
  intros [->| ->]%orb_true_iff; [reflexivity|]. now rewrite orb_true_r.
Qed.

Lemma free_of_markup_colon (s : str) :
  free_of (py "<>:") s = true -> free_of (py ":") s = true.
Proof.
  apply free_of_incl. intro c. simpl. rewrite !orb_false_r.
  intros ->. now rewrite !orb_true_r.
Qed.

Lemma isdigit_char_not_markup (c : ascii) :
  isdigit_char c = true -> existsb (Ascii.eqb c) (py "<>:") = false.
Proof.
  destruct c as [[] [] [] [] [] [] [] []]; intro H; try discriminate H; reflexivity.
Qed.

Lemma is_decimal_isdigit_char (c : ascii) : is_decimal_char c = true -> isdigit_char c = true.
Proof. unfold isdigit_char. now intros ->. Qed.

Lemma isdigit_free_of_markup (s : str) : isdigit s = true -> free_of (py "<>:") s = true.
Proof.
  destruct s as [|c0 s0]; [discriminate|]. unfold isdigit.
  generalize (c0 :: s0). clear. intro s.
  induction s as [|c s IH]; [reflexivity|].
  simpl forallb. rewrite free_of_cons, !andb_true_iff.
  intros [Hc Hs]. split; [|now apply IH].
  now rewrite isdigit_char_not_markup.
Qed.

Lemma isdecimal_isdigit (s : str) : isdecimal s = true -> isdigit s = true.
Proof.
  destruct s as [|c0 s0]; [discriminate|]. unfold isdecimal, isdigit.
  generalize (c0 :: s0). clear. intro s.
  induction s as [|c s IH]; [reflexivity|]. simpl.
  rewrite !andb_true_iff. intros [Hc Hs]. split; [now apply is_decimal_isdigit_char|now apply IH].
Qed.

Lemma isdigit_nonempty (s : str) : isdigit s = true -> s <> [].
Proof. now destruct s. Qed.

(** ** Slices *)

Lemma skipn_length_app {A} (pre x : list A) : skipn (length pre) (pre ++ x) = x.
Proof. induction pre; simpl; auto. Qed.

Lemma firstn_length_app {A} (t r : list A) : firstn (length t) (t ++ r) = t.
Proof. induction t; simpl; [reflexivity|]. now f_equal. Qed.

Lemma slice_middle (pre t r : str) :
  slice (pre ++ t ++ r) (length pre) (length pre + length t) = t.
Proof.
  unfold slice. rewrite skipn_length_app.
  replace (length pre + length t - length pre) with (length t) by lia.
  apply firstn_length_app.
Qed.

Lemma slice_suffix (pre t : str) : slice (pre ++ t) (length pre) (length (pre ++ t)) = t.
Proof.
  rewrite <- (app_nil_r t) at 1. rewrite length_app. apply slice_middle.
Qed.

(** ** Decimal numerals *)

Lemma uint_chars_decimal (d : Decimal.uint) :
  forallb is_decimal_char (list_ascii_of_string (NilEmpty.string_of_uint d)) = true.
Proof. induction d; simpl; auto. Qed.

Lemma format_int_nonneg (t : Z) :
  (0 <= t)%Z -> isdecimal (format_int t) = true /\ int (format_int t) = Ok t.
Proof.
  intro Ht. destruct t as [|p|p]; [split; reflexivity| |lia].
  unfold format_int, int. simpl Z.to_int. unfold NilZero.string_of_int, NilZero.string_of_uint.
  pose proof (DecimalPos.Unsigned.to_uint_nonnil p) as Hnil.
  pose proof (DecimalPos.Unsigned.of_to p) as Hof.
  destruct (Pos.to_uint p) as [|d|d|d|d|d|d|d|d|d|d] eqn:E; [congruence| ..];
    (split;
     [ unfold isdecimal; rewrite <- E;
       pose proof (uint_chars_decimal (Pos.to_uint p)) as Hd; rewrite E in Hd |- *;
       simpl in Hd |- *; exact Hd
     | rewrite string_of_list_ascii_of_string, NilEmpty.usu;
       unfold N.of_uint; rewrite Hof; reflexivity ]).
Qed.

(** ** The regular expression *)

Lemma lazy_rest_free (p r : str) :
  free_of (py "<>") p = true -> lazy_rest (p ++ ">"%char :: r) = Some p.
Proof.
  induction p as [|c p IH]; [reflexivity|].
  rewrite free_of_cons, andb_true_iff, negb_true_iff. simpl existsb.
  rewrite !orb_false_iff. intros [(Hlt & Hgt & _) Hp].
  simpl. rewrite Hgt, Hlt, (IH Hp). reflexivity.
Qed.

Lemma match_param_free (p r : str) :
  p <> [] -> free_of (py "<>") p = true -> match_param (p ++ ">"%char :: r) = Some p.
Proof.
  destruct p as [|c p]; [congruence|]. intros _.
  rewrite free_of_cons, andb_true_iff, negb_true_iff. simpl existsb.
  rewrite !orb_false_iff. intros [(Hlt & _) Hp].
  simpl. rewrite Hlt, (lazy_rest_free _ _ Hp). reflexivity.
Qed.

Lemma markup_length (ty param : str) :
  length (markup ty param) = 2 + length ty + length param.
Proof. unfold markup. rewrite !length_app. simpl. lia. Qed.

Lemma match_here_markup (ty p r : str) :
  In ty [py "@&"; py "#"; py "/"; py ":"; py "a:"; py "t:"] ->
  p <> [] -> free_of (py "<>") p = true ->
  match_here (markup ty p ++ r) = Some (ty, p).
Proof.
  intros Hty Hne Hp. unfold markup.
  pose proof (match_param_free r Hne Hp) as Hm.
  simpl in Hty.
  repeat (destruct Hty as [<-|Hty];
          [ cbn -[match_param]; rewrite <- app_assoc; cbn -[match_param];
            rewrite Hm; reflexivity |]).
  destruct Hty.
Qed.

Lemma match_here_user (p r : str) :
  isdecimal p = true -> match_here (markup (py "@") p ++ r) = Some (py "@", p).
Proof.
  intro Hdec.
  assert (Hfree : free_of (py "<>") p = true)
    by now apply free_of_markup_angle, isdigit_free_of_markup, isdecimal_isdigit.
  assert (Hne : p <> []) by now apply isdigit_nonempty, isdecimal_isdigit.
  pose proof (match_param_free r Hne Hfree) as Hm.
  destruct p as [|c p]; [congruence|].
  assert (Hc : is_decimal_char c = true).
  { unfold isdecimal in Hdec. simpl in Hdec. now apply andb_true_iff in Hdec. }
  clear Hdec Hfree Hne. unfold markup.
  destruct c as [[] [] [] [] [] [] [] []]; try discriminate Hc;
    cbn -[match_param]; rewrite <- app_assoc; cbn -[match_param] in Hm |- *;
    rewrite Hm; reflexivity.
Qed.

(** ** The scan *)

Lemma scan_unfold (i : nat) (c : ascii) (s : str) :
  scan 0 i (c :: s) =
  match match_here (c :: s) with
  | Some (ty, param) =>
      mkMatch 0 i (i + (2 + length ty + length param)) ty param
      :: scan (2 + length ty + length param - 1) (S i) s
  | None => scan 0 (S i) s
  end.
Proof. reflexivity. Qed.

(** The characters of a match are passed over. *)
Lemma scan_skip (u r : str) (i : nat) :
  scan (length u) i (u ++ r) = scan 0 (i + length u) r.
Proof.
  revert i. induction u as [|c u IH]; intro i; simpl.
  - now rewrite Nat.add_0_r.
  - rewrite IH. f_equal. lia.
Qed.

(** No match starts inside text that holds no [<]. *)
Lemma scan_text (t r : str) (i : nat) :
  free_of (py "<") t = true -> scan 0 i (t ++ r) = scan 0 (i + length t) r.
Proof.
  revert i. induction t as [|c t IH]; intros i Ht.
  - simpl. now rewrite Nat.add_0_r.
  - rewrite free_of_cons, andb_true_iff, negb_true_iff in Ht. destruct Ht as [Hc Ht].
    simpl existsb in Hc. rewrite orb_false_r in Hc.
    change ((c :: t) ++ r) with (c :: t ++ r). rewrite scan_unfold.
    unfold match_here. rewrite Hc, (IH _ Ht). f_equal. simpl. lia.
Qed.

Lemma scan_markup (ty p r : str) (i : nat) :
  match_here (markup ty p ++ r) = Some (ty, p) ->
  scan 0 i (markup ty p ++ r) =
  mkMatch 0 i (i + length (markup ty p)) ty p :: scan 0 (i + length (markup ty p)) r.
Proof.
  intro H. rewrite markup_length.
  assert (E : markup ty p ++ r = "<"%char :: (ty ++ p ++ py ">") ++ r) by reflexivity.
  rewrite E in *. rewrite scan_unfold, H. f_equal.
  replace (2 + length ty + length p - 1) with (length (ty ++ p ++ py ">"))
    by (rewrite !length_app; simpl; lia).
  rewrite scan_skip. f_equal. rewrite !length_app. simpl. lia.
Qed.

(** *** What a match object holds *)

Lemma startswith_skipn (ty s : str) :
  startswith ty s = true -> s = ty ++ skipn (length ty) s.
Proof.
  revert s. induction ty as [|x ty IH]; intros [|y s]; simpl; try discriminate; auto.
  intros [Hx Hs]%andb_true_iff. apply Ascii.eqb_eq in Hx. subst y. f_equal. now apply IH.
Qed.

Lemma lazy_rest_sound (s p : str) :
  lazy_rest s = Some p -> free_of (py "<") p = true /\ exists r, s = p ++ ">"%char :: r.
Proof.
  revert p. induction s as [|c s IH]; intro p; cbn [lazy_rest]; [discriminate|].
  destruct (Ascii.eqb c ">") eqn:Egt.
  - intros [= <-]. apply Ascii.eqb_eq in Egt. subst c. split; [reflexivity|now exists s].
  - destruct (Ascii.eqb c "<") eqn:Elt; [discriminate|].
    destruct (lazy_rest s) as [p'|]; [|discriminate]. intros [= <-].
    destruct (IH p' eq_refl) as (Hfree & r & ->).
    split; [|now exists r]. rewrite free_of_cons, Hfree, andb_true_r. simpl. now rewrite Elt.
Qed.

Lemma match_param_sound (s p : str) :
  match_param s = Some p ->
  p <> [] /\ free_of (py "<") p = true /\ exists r, s = p ++ ">"%char :: r.
Proof.
  destruct s as [|c s]; cbn [match_param]; [discriminate|].
  destruct (Ascii.eqb c "<") eqn:Elt; [discriminate|].
  destruct (lazy_rest s) as [p'|] eqn:E; [|discriminate]. intros [= <-].
  destruct (lazy_rest_sound _ E) as (Hfree & r & ->).
  split; [discriminate|]. split; [|now exists r].
  rewrite free_of_cons, Hfree, andb_true_r. simpl. now rewrite Elt.
Qed.

Lemma match_alternatives_sound (alts : list str) (s ty p : str) :
  match_alternatives alts s = Some (ty, p) ->
  In ty alts /\ p <> [] /\ free_of (py "<") p = true
  /\ exists r, s = ty ++ p ++ ">"%char :: r.
Proof.
  induction alts as [|ty0 alts IH]; simpl; [discriminate|].
  destruct (startswith ty0 s) eqn:Estart.
  - destruct (match_param (skipn (length ty0) s)) as [p0|] eqn:Eparam.
    + intros [= <- <-]. destruct (match_param_sound _ Eparam) as (Hne & Hfree & r & Hr).
      repeat split; auto. exists r. rewrite <- Hr. now apply startswith_skipn.
    + intro H. destruct (IH H) as (Hin & Hrest). auto.
  - intro H. destruct (IH H) as (Hin & Hrest). auto.
Qed.

Lemma match_here_sound (s ty p : str) :
  match_here s = Some (ty, p) ->
  In ty type_alternatives /\ p <> [] /\ free_of (py "<") p = true
  /\ exists r, s = markup ty p ++ r.
Proof.
  destruct s as [|c s]; cbn [match_here]; [discriminate|].
  destruct (Ascii.eqb c "<") eqn:Elt; [|discriminate].
  apply Ascii.eqb_eq in Elt. subst c. intro H.
  apply match_alternatives_sound in H. destruct H as (Hin & Hne & Hfree & r & ->).
  repeat split; auto. exists r. unfold markup. simpl. now rewrite <- !app_assoc.
Qed.

Lemma scan_sound (s pre : str) (skip : nat) (embed : Match) :
  In embed (scan skip (length pre) s) ->
  Match_pos embed = 0
  /\ In (Match_type embed) type_alternatives
  /\ Match_param embed <> []
  /\ free_of (py "<") (Match_param embed) = true
  /\ slice (pre ++ s) (Match_start embed) (Match_end embed) = group embed.
Proof.
  revert pre skip. induction s as [|c s IH]; intros pre skip; [intros []|].
  assert (Hstep : forall k, In embed (scan k (S (length pre)) s) ->
            Match_pos embed = 0 /\ In (Match_type embed) type_alternatives
            /\ Match_param embed <> [] /\ free_of (py "<") (Match_param embed) = true
            /\ slice (pre ++ c :: s) (Match_start embed) (Match_end embed) = group embed).
  { intros k Hk. replace (S (length pre)) with (length (pre ++ [c])) in Hk
      by (rewrite length_app; simpl; lia).
    apply IH in Hk. now rewrite <- app_assoc in Hk. }
  destruct skip as [|k]; [|apply Hstep].
  rewrite scan_unfold.
  destruct (match_here (c :: s)) as [[ty p]|] eqn:E; [|apply Hstep].
  intros [<-|Htail]; [|now apply Hstep in Htail].
  destruct (match_here_sound _ E) as (Hin & Hne & Hfree & r & Hr).
  cbn [Match_pos Match_type Match_param Match_start Match_end].
  repeat split; auto. rewrite Hr, <- markup_length. apply slice_middle.
Qed.

(** Every match that [finditer] returns has [pos] 0, a type of the
    alternation and a parameter that is not empty and holds no [<], and its
    [group()] is the slice of the input from [start()] to [end()]. *)
Lemma finditer_sound (msg : str) (embed : Match) :
  In embed (finditer msg) ->
  Match_pos embed = 0
  /\ In (Match_type embed) type_alternatives
  /\ Match_param embed <> []
  /\ free_of (py "<") (Match_param embed) = true
  /\ slice msg (Match_pos embed + Match_start embed) (Match_pos embed + Match_end embed)
     = group embed.
Proof.
  intro H. apply (@scan_sound msg [] 0) in H.
  destruct H as (Hpos & Hty & Hne & Hfree & Hslice). rewrite Hpos. auto.
Qed.

(** The alternation backtracks: in [<@!>] the alternative [@!] leaves no
    parameter and [@] takes [!]; a parameter may start with [>]; a [<]
    inside stops the attempt and the scan goes on behind it. *)
Example finditer_backtracks :
  finditer (py "<@!>") = [mkMatch 0 0 4 (py "@") (py "!")]
  /\ finditer (py "<@!>x>") = [mkMatch 0 0 6 (py "@!") (py ">x")]
  /\ finditer (py "<@!<@5>") = [mkMatch 0 3 7 (py "@") (py "5")]
  /\ finditer (py "<:a>b:1>") = [mkMatch 0 0 4 (py ":") (py "a")]
  /\ finditer (py "x<@1><#2>y") =
     [mkMatch 0 1 5 (py "@") (py "1"); mkMatch 0 5 9 (py "#") (py "2")].
Proof. repeat split. Qed.

(** *** Text in front of a [<] *)

(** An attempt that runs into a [<] fails as it does at the end of the
    text. *)
Lemma lazy_rest_lt (s r : str) : lazy_rest (s ++ "<"%char :: r) = lazy_rest s.
Proof.
  induction s as [|c s IH]; [reflexivity|]. cbn [app lazy_rest]. now rewrite IH.
Qed.

Lemma match_param_lt (s r : str) : match_param (s ++ "<"%char :: r) = match_param s.
Proof.
  destruct s as [|c s]; [reflexivity|]. cbn [app match_param]. now rewrite lazy_rest_lt.
Qed.

Lemma startswith_lt (ty s r : str) :
  free_of (py "<") ty = true -> startswith ty (s ++ "<"%char :: r) = startswith ty s.
Proof.
  revert s. induction ty as [|x ty IH]; intros s Hty; [now destruct s|].
  rewrite free_of_cons, andb_true_iff, negb_true_iff in Hty. destruct Hty as [Hx Hty].
  simpl existsb in Hx. rewrite orb_false_r in Hx.
  destruct s as [|y s]; cbn [app startswith]; [now rewrite Hx|].
  now rewrite (IH s Hty).
Qed.

Lemma skipn_startswith (ty s r : str) :
  startswith ty s = true -> skipn (length ty) (s ++ r) = skipn (length ty) s ++ r.
Proof.
  revert s. induction ty as [|x ty IH]; intros s H; [reflexivity|].
  destruct s as [|y s]; [discriminate H|]. cbn [startswith] in H.
  apply andb_true_iff in H as [_ H]. cbn [length app skipn]. now apply IH.
Qed.

Lemma match_alternatives_lt (alts : list str) (s r : str) :
  Forall (fun ty => free_of (py "<") ty = true) alts ->
  match_alternatives alts (s ++ "<"%char :: r) = match_alternatives alts s.
Proof.
  induction 1 as [|ty alts Hty _ IH]; [reflexivity|]. cbn [match_alternatives].
  rewrite (@startswith_lt ty s r Hty), IH.
  destruct (startswith ty s) eqn:E; [|reflexivity].
  now rewrite (@skipn_startswith ty s _ E), match_param_lt.
Qed.

Lemma match_here_lt (c : ascii) (s r : str) :
  match_here ((c :: s) ++ "<"%char :: r) = match_here (c :: s).
Proof.
  cbn [app match_here]. destruct (Ascii.eqb c "<"); [|reflexivity].
  apply match_alternatives_lt. unfold type_alternatives. repeat constructor.
Qed.

(** The matches of a text followed by a [<] are the matches of the text,
    then those from the [<] on. *)
Lemma scan_before_lt (pre r : str) (skip i : nat) :
  skip <= length pre ->
  scan skip i (pre ++ "<"%char :: r) =
  scan skip i pre ++ scan 0 (i + length pre) ("<"%char :: r).
Proof.
  revert skip i. induction pre as [|c pre IH]; intros skip i Hskip.
  - cbn [length] in Hskip. replace skip with 0 by lia. cbn [app length scan].
    now rewrite Nat.add_0_r.
  - destruct skip as [|k].
    + change ((c :: pre) ++ "<"%char :: r) with (c :: pre ++ "<"%char :: r).
      rewrite !scan_unfold.
      change (c :: pre ++ "<"%char :: r) with ((c :: pre) ++ "<"%char :: r).
      rewrite match_here_lt.
      destruct (match_here (c :: pre)) as [[ty p]|] eqn:E.
      * destruct (match_here_sound _ E) as (_ & _ & _ & r' & Hr).
        pose proof (f_equal (@length ascii) Hr) as Hl.
        rewrite length_app, markup_length in Hl. cbn [length] in Hl.
        rewrite IH by lia. cbn [app length].
        now replace (i + S (length pre)) with (S i + length pre) by lia.
      * rewrite IH by lia. cbn [length].
        now replace (i + S (length pre)) with (S i + length pre) by lia.
    + cbn [app scan length] in *. rewrite IH by lia.
      now replace (i + S (length pre)) with (S i + length pre) by lia.
Qed.

Lemma scan_nil (s : str) (skip i j : nat) : scan skip i s = [] -> scan skip j s = [].
Proof.
  revert skip i j. induction s as [|c s IH]; intros skip i j; [reflexivity|].
  destruct skip as [|k]; [|cbn [scan]; apply IH].
  rewrite !scan_unfold. destruct (match_here (c :: s)) as [[ty p]|]; [discriminate|].
  apply IH.
Qed.

(** No match starts inside a text that holds none, when the text ends the
    input or a [<] follows it. *)
Lemma scan_text_block (t rest : str) (i : nat) :
  finditer t = [] -> rest = [] \/ (exists r, rest = "<"%char :: r) ->
  scan 0 i (t ++ rest) = scan 0 (i + length t) rest.
Proof.
  intros Hnone [->|(r & ->)].
  - rewrite app_nil_r. cbn [scan]. exact (scan_nil t 0 0 i Hnone).
  - rewrite scan_before_lt by lia. now rewrite (scan_nil t 0 0 i Hnone).
Qed.

(** The pattern at the head of a markup of any type but [@]. *)
Lemma match_here_markup_bang (p r : str) :
  p <> [] -> free_of (py "<>") p = true ->
  match_here (markup (py "@!") p ++ r) = Some (py "@!", p).
Proof.
  intros Hne Hp. unfold markup.
  pose proof (match_param_free r Hne Hp) as Hm.
  cbn -[match_param]. rewrite <- app_assoc. cbn -[match_param]. now rewrite Hm.
Qed.

(** The pattern at the head of [<@...>] when the parameter does not start
    with [!] or [&]. *)
Lemma match_here_markup_at (p r : str) :
  p <> [] -> free_of (py "<>") p = true -> free_of (py "!&") (firstn 1 p) = true ->
  match_here (markup (py "@") p ++ r) = Some (py "@", p).
Proof.
  intros Hne Hp Hfirst.
  pose proof (match_param_free r Hne Hp) as Hm.
  destruct p as [|c p]; [congruence|].
  cbn [firstn] in Hfirst. rewrite free_of_cons in Hfirst.
  apply andb_true_iff in Hfirst as [Hc _]. apply negb_true_iff in Hc.
  simpl existsb in Hc. rewrite orb_false_r in Hc. apply orb_false_iff in Hc as [Hbang Hamp].
  rewrite Ascii.eqb_sym in Hbang. rewrite Ascii.eqb_sym in Hamp.
  change (markup (py "@") (c :: p) ++ r)
    with ("<"%char :: "@"%char :: c :: (p ++ py ">") ++ r).
  change ((c :: p) ++ ">"%char :: r) with (c :: p ++ ">"%char :: r) in Hm.
  rewrite <- app_assoc. change (py ">" ++ r) with (">"%char :: r).
  cbn [match_here]. rewrite Ascii.eqb_refl.
  unfold type_alternatives. cbn [match_alternatives].
  change (startswith (py "@!") ("@"%char :: c :: p ++ ">"%char :: r))
    with (Ascii.eqb "@" "@" && (Ascii.eqb "!" c && true)).
  change (startswith (py "@&") ("@"%char :: c :: p ++ ">"%char :: r))
    with (Ascii.eqb "@" "@" && (Ascii.eqb "&" c && true)).
  rewrite Hbang, Hamp, !andb_false_r.
  change (startswith (py "@") ("@"%char :: c :: p ++ ">"%char :: r)) with (Ascii.eqb "@" "@" && true).
  rewrite Ascii.eqb_refl. cbn [andb py list_ascii_of_string length skipn].
  now rewrite Hm.
Qed.

(** *** Parameters read whole *)

Lemma match_param_whole (p r : str) :
  read_whole p = true -> match_param (p ++ ">"%char :: r) = Some p.
Proof.
  destruct p as [|c p]; [discriminate|]. cbn [read_whole].
  intros [Hc Hp]%andb_true_iff. apply negb_true_iff in Hc.
  cbn [app match_param]. now rewrite Hc, (lazy_rest_free _ _ Hp).
Qed.

Lemma match_here_whole (ty p r : str) :
  In ty [py "@&"; py "#"; py "/"; py ":"; py "a:"; py "t:"] ->
  read_whole p = true ->
  match_here (markup ty p ++ r) = Some (ty, p).
Proof.
  intros Hty Hp. unfold markup.
  pose proof (@match_param_whole p r Hp) as Hm.
  simpl in Hty.
  repeat (destruct Hty as [<-|Hty];
          [ cbn -[match_param]; rewrite <- app_assoc; cbn -[match_param];
            rewrite Hm; reflexivity |]).
  destruct Hty.
Qed.

Lemma match_here_at_whole (p r : str) :
  read_whole p = true -> free_of (py "!&") (firstn 1 p) = true ->
  match_here (markup (py "@") p ++ r) = Some (py "@", p).
Proof.
  intros Hp Hfirst.
  pose proof (@match_param_whole p r Hp) as Hm.
  destruct p as [|c p]; [discriminate|].
  cbn [firstn] in Hfirst. rewrite free_of_cons in Hfirst.
  apply andb_true_iff in Hfirst as [Hc _]. apply negb_true_iff in Hc.
  simpl existsb in Hc. rewrite orb_false_r in Hc. apply orb_false_iff in Hc as [Hbang Hamp].
  rewrite Ascii.eqb_sym in Hbang. rewrite Ascii.eqb_sym in Hamp.
  change (markup (py "@") (c :: p) ++ r)
    with ("<"%char :: "@"%char :: c :: (p ++ py ">") ++ r).
  change ((c :: p) ++ ">"%char :: r) with (c :: p ++ ">"%char :: r) in Hm.
  rewrite <- app_assoc. change (py ">" ++ r) with (">"%char :: r).
  cbn [match_here]. rewrite Ascii.eqb_refl.
  unfold type_alternatives. cbn [match_alternatives].
  change (startswith (py "@!") ("@"%char :: c :: p ++ ">"%char :: r))
    with (Ascii.eqb "@" "@" && (Ascii.eqb "!" c && true)).
  change (startswith (py "@&") ("@"%char :: c :: p ++ ">"%char :: r))
    with (Ascii.eqb "@" "@" && (Ascii.eqb "&" c && true)).
  rewrite Hbang, Hamp, !andb_false_r.
  change (startswith (py "@") ("@"%char :: c :: p ++ ">"%char :: r)) with (Ascii.eqb "@" "@" && true).
  rewrite Ascii.eqb_refl. cbn [andb py list_ascii_of_string length skipn].
  now rewrite Hm.
Qed.

(** ** The segments of one match *)

Lemma split_free (a : str) : free_of (py ":") a = true -> split ":" a = [a].
Proof.
  induction a as [|c a IH]; [reflexivity|].
  rewrite free_of_cons, andb_true_iff, negb_true_iff. simpl existsb.
  rewrite orb_false_r. intros [Hc Ha]. simpl. now rewrite Hc, (IH Ha).
Qed.

Lemma split_two (a b : str) :
  free_of (py ":") a = true -> free_of (py ":") b = true ->
  split ":" (a ++ ":"%char :: b) = [a; b].
Proof.
  intros Ha Hb. induction a as [|c a IH].
  - simpl. now rewrite (split_free _ Hb).
  - rewrite free_of_cons, andb_true_iff, negb_true_iff in Ha. simpl existsb in Ha.
    rewrite orb_false_r in Ha. destruct Ha as [Hc Ha].
    simpl. now rewrite Hc, (IH Ha).
Qed.

Lemma yield_mention_user (i j : nat) (p : str) (id : Snowflake) :
  Snowflake_of p = Ok id -> yield_match (mkMatch 0 i j (py "@") p) = Ok [MentionUserSegment id].
Proof. intro H. unfold yield_match. simpl. now rewrite H. Qed.

Lemma yield_mention_role (i j : nat) (p : str) (id : Snowflake) :
  Snowflake_of p = Ok id -> yield_match (mkMatch 0 i j (py "@&") p) = Ok [MentionRoleSegment id].
Proof. intro H. unfold yield_match. simpl. now rewrite H. Qed.

Lemma yield_mention_channel (i j : nat) (p : str) (id : Snowflake) :
  Snowflake_of p = Ok id ->
  yield_match (mkMatch 0 i j (py "#") p) = Ok [MentionChannelSegment id].
Proof. intro H. unfold yield_match. simpl. now rewrite H. Qed.

Lemma yield_custom_emoji (i j : nat) (name id : str) (animated : bool) :
  free_of (py ":") name = true -> free_of (py ":") id = true ->
  yield_match (mkMatch 0 i j (if animated then py "a:" else py ":") (name ++ py ":" ++ id)) =
  Ok [CustomEmojiSegment name id (Some animated)].
Proof.
  intros Hn Hi. unfold yield_match. cbn [Match_type Match_param].
  change (name ++ py ":" ++ id) with (name ++ ":"%char :: id).
  rewrite (split_two _ _ Hn Hi). now destruct animated.
Qed.

Lemma yield_timestamp (i j : nat) (digits value : str) (t : Z) (st : TimeStampStyle) :
  isdigit digits = true -> int digits = Ok t ->
  free_of (py ":") value = true -> TimeStampStyle_of value = Ok st ->
  yield_match (mkMatch 0 i j (py "t:") (digits ++ py ":" ++ value)) =
  Ok [TimestampSegment t (Some st)].
Proof.
  intros Hd Hint Hv Hst. unfold yield_match. cbn [Match_type Match_param].
  change (digits ++ py ":" ++ value) with (digits ++ ":"%char :: value).
  rewrite (split_two _ _ (free_of_markup_colon _ (isdigit_free_of_markup _ Hd)) Hv).
  cbn. rewrite Hd, Hint. cbn. rewrite Hst. reflexivity.
Qed.

(** A timestamp match without a second part is never read as a timestamp:
    the test for the one-part form is made on the whole match, which starts
    with [<]. *)
Lemma yield_timestamp_one_part (i j : nat) (p : str) :
  free_of (py ":") p = true ->
  yield_match (mkMatch 0 i j (py "t:") p) = Ok [TextSegment (unescape (markup (py "t:") p))].
Proof.
  intro Hp. unfold yield_match. cbn [Match_type Match_param].
  rewrite (split_free _ Hp). reflexivity.
Qed.

(** ** Tokenizer *)

(** An input that is one markup. *)
Lemma construct_single_markup (ty p : str) (segs : list MessageSegment) :
  match_here (markup ty p ++ []) = Some (ty, p) ->
  (forall i j, yield_match (mkMatch 0 i j ty p) = Ok segs) ->
  _construct (markup ty p) = Ok segs.
Proof.
  intros Hmatch Hyield. unfold _construct, finditer.
  rewrite <- (app_nil_r (markup ty p)) at 2.
  rewrite scan_markup by exact Hmatch.
  destruct (markup ty p) eqn:E; [discriminate E|]. rewrite <- E.
  cbn [construct_loop scan Match_pos Match_start Match_end].
  rewrite Hyield. unfold slice. rewrite !Nat.add_0_l, !Nat.sub_diag.
  cbn. now rewrite app_nil_r.
Qed.

(** X20. [<t:SECONDS:STYLE>], with all-digit seconds that [int] reads and
    a style value without [<], [>], [:] that the enumeration knows, is
    tokenized to one timestamp segment with those seconds and that
    style. *)
Lemma construct_timestamp_with_style (seconds value : str) (t : Z) (st : TimeStampStyle) :
  isdigit seconds = true -> int seconds = Ok t ->
  free_of (py "<>:") value = true -> TimeStampStyle_of value = Ok st ->
  _construct (py "<t:" ++ seconds ++ py ":" ++ value ++ py ">") =
  Ok [TimestampSegment t (Some st)].
Proof.
  intros Hd Hint Hfree Hst.
  pose proof (isdigit_free_of_markup _ Hd) as Hsec.
  replace (py "<t:" ++ seconds ++ py ":" ++ value ++ py ">")
    with (markup (py "t:") (seconds ++ py ":" ++ value))
    by (unfold markup; simpl; now rewrite <- !app_assoc).
  apply construct_single_markup.
  - apply match_here_markup; [simpl; tauto|now destruct seconds|].
    rewrite free_of_app. apply andb_true_iff.
    split; [now apply free_of_markup_angle|].
    change (py ":" ++ value) with (":"%char :: value).
    rewrite free_of_cons. now rewrite (free_of_markup_angle _ Hfree).
  - intros i j. apply yield_timestamp; auto. now apply free_of_markup_colon.
Qed.

(** C1, at the input where the code departs from it.  A match [<t:SECONDS>]
    with all-digit [SECONDS] and no style is emitted as one text segment
    holding the unescaped match, not as a timestamp segment: the branch for
    the one-part form tests [embed.group().isdigit()], the whole match
    with its [<t:] and [>], in place of the parameter. *)
Theorem construct_timestamp_without_style (seconds : str) :
  isdigit seconds = true ->
  _construct (py "<t:" ++ seconds ++ py ">") =
  Ok [TextSegment (unescape (py "<t:" ++ seconds ++ py ">"))].
Proof.
  intro Hd.
  pose proof (isdigit_free_of_markup _ Hd) as Hfree.
  change (py "<t:" ++ seconds ++ py ">") with (markup (py "t:") seconds).
  apply construct_single_markup.
  - apply match_here_markup;
      [simpl; tauto | now apply isdigit_nonempty | now apply free_of_markup_angle].
  - intros i j. apply yield_timestamp_one_part. now apply free_of_markup_colon.
Qed.

Lemma yield_malformed (embed : Match) :
  malformed embed = true ->
  yield_match embed = Ok [TextSegment (unescape (group embed))].
Proof.
  destruct embed as [pos i j ty p]. unfold malformed, yield_match, group.
  cbn [Match_type Match_param].
  intros [H|H]%orb_true_iff; apply andb_true_iff in H as [Hty Hcut];
    apply negb_true_iff in Hcut.
  - unfold str_in in Hty. simpl existsb in Hty. rewrite orb_false_r in Hty.
    apply orb_true_iff in Hty as [Hty|Hty]; apply str_eqb_eq in Hty; subst ty;
      cbn; rewrite Hcut; reflexivity.
  - apply str_eqb_eq in Hty. subst ty. cbn. rewrite Hcut, andb_false_r. reflexivity.
Qed.

(** A match that falls back yields one text segment holding [unescape]
    of the match. *)
Lemma yield_falls_back (embed : Match) :
  falls_back embed = true ->
  yield_match embed = Ok [TextSegment (unescape (group embed))].
Proof.
  destruct embed as [pos i j ty p]. unfold falls_back, yield_match, group.
  cbn [Match_type Match_param].
  intros [H|H]%orb_true_iff; apply andb_true_iff in H as [Hty Hcut].
  - apply negb_true_iff in Hcut.
    unfold str_in in Hty. simpl existsb in Hty. rewrite orb_false_r in Hty.
    apply orb_true_iff in Hty as [Hty|Hty]; apply str_eqb_eq in Hty; subst ty;
      cbn; rewrite Hcut; reflexivity.
  - apply str_eqb_eq in Hty. subst ty.
    apply orb_true_iff in Hcut as [Hcut|Hcut].
    + apply negb_true_iff in Hcut. cbn. rewrite Hcut, andb_false_r. reflexivity.
    + apply Nat.leb_le in Hcut.
      assert (E : (length (split ":" p) =? 2) = false) by (apply Nat.eqb_neq; lia).
      cbn. rewrite E. reflexivity.
Qed.

(** The two malformed inputs of section 8: one text segment each, holding
    [unescape] of the input. *)
Example construct_bad_emoji :
  _construct (py "<:bad>") = Ok [TextSegment (unescape (py "<:bad>"))].
Proof. reflexivity. Qed.

Example construct_bad_timestamp :
  _construct (py "<t:abc>") = Ok [TextSegment (unescape (py "<t:abc>"))].
Proof. reflexivity. Qed.

(** A superscript digit passes [isdigit] and is refused by [int]: the
    tokenizer raises on [<t:] U+00B2 [:R>]. *)
Lemma construct_raises_on_superscript :
  _construct (py "<t:" ++ ["178"%char] ++ py ":R>") = Raise ValueError.
Proof. reflexivity. Qed.

(** A mention goes through [Snowflake(...)] and raises when it does. *)
Example construct_mention_converts :
  _construct (py "<@abc>") = (id <- Snowflake_of (py "abc") ;; Ok [MentionUserSegment id]).
Proof. cbn. destruct (Snowflake_of _); reflexivity. Qed.

(** *** Render, then tokenize *)

(** The render form of a segment that reads back, other than a text
    without a match, is a markup that the pattern matches whatever follows
    and that yields the segment. *)
Lemma reads_back_markup (seg : MessageSegment) :
  reads_back seg -> is_plain_text seg = false ->
  exists ty p,
    __str__ seg = markup ty p
    /\ (forall r, match_here (markup ty p ++ r) = Some (ty, p))
    /\ (forall i j, yield_match (mkMatch 0 i j ty p) = Ok [seg]).
Proof.
  destruct seg as [a f|i|e|c|name id animated|i|i|i| |t|t style|r];
    cbn [reads_back is_plain_text __str__]; intros Hrb Hplain; try contradiction.
  - (* custom_emoji *)
    destruct Hrb as (Hanim & Hname & Hid & Hwhole).
    destruct animated as [b|]; [|congruence].
    exists (if b then py "a:" else py ":"), (name ++ py ":" ++ id). repeat split.
    + destruct b; unfold markup; simpl; now rewrite <- !app_assoc.
    + intro r. apply match_here_whole; [destruct b; simpl; tauto|exact Hwhole].
    + intros i j. now apply yield_custom_emoji.
  - (* mention_user *)
    destruct Hrb as [[Hwhole Hof] Hfirst]. exists (py "@"), (format_Snowflake i).
    repeat split.
    + intro r. now apply match_here_at_whole.
    + intros. now apply yield_mention_user.
  - (* mention_role *)
    destruct Hrb as [Hwhole Hof]. exists (py "@&"), (format_Snowflake i). repeat split.
    + intro r. apply match_here_whole; [simpl; tauto|exact Hwhole].
    + intros. now apply yield_mention_role.
  - (* mention_channel *)
    destruct Hrb as [Hwhole Hof]. exists (py "#"), (format_Snowflake i). repeat split.
    + intro r. apply match_here_whole; [simpl; tauto|exact Hwhole].
    + intros. now apply yield_mention_channel.
  - (* text that is one markup *)
    destruct Hrb as (_ & Hfix & [Hnone|(ty & p & Ht & Hwhole & Hfall)]);
      [now rewrite Hnone in Hplain|].
    exists ty, p. split; [exact Ht|].
    assert (Hty : In ty [py "@&"; py "#"; py "/"; py ":"; py "a:"; py "t:"]).
    { unfold falls_back in Hfall. cbn [Match_type Match_param] in Hfall.
      apply orb_true_iff in Hfall as [H|H]; apply andb_true_iff in H as [H _].
      - unfold str_in in H. simpl existsb in H. rewrite orb_false_r in H.
        apply orb_true_iff in H as [H|H]; apply str_eqb_eq in H; subst ty; simpl; tauto.
      - apply str_eqb_eq in H. subst ty. simpl. tauto. }
    split; [intro r; now apply match_here_whole|].
    intros i j.
    rewrite (@yield_falls_back (mkMatch 0 i j ty p)) by exact Hfall.
    unfold group. cbn [Match_type Match_param]. now rewrite <- Ht, Hfix.
  - (* timestamp *)
    destruct Hrb as (Ht & st & -> & _ & Hfree & Hof).
    destruct (format_int_nonneg Ht) as [Hdec Hint].
    pose proof (isdecimal_isdigit _ Hdec) as Hdig.
    exists (py "t:"), (format_int t ++ py ":" ++ TimeStampStyle_value st). repeat split.
    + unfold markup. simpl. now rewrite <- !app_assoc.
    + intro r. apply match_here_markup; [simpl; tauto| |].
      * pose proof (@isdigit_nonempty _ Hdig). now destruct (format_int t).
      * rewrite free_of_app. apply andb_true_iff.
        split; [now apply free_of_markup_angle, isdigit_free_of_markup|].
        change (py ":" ++ TimeStampStyle_value st) with (":"%char :: TimeStampStyle_value st).
        rewrite free_of_cons. now rewrite (free_of_markup_angle _ Hfree).
    + intros i j. apply yield_timestamp; auto. now apply free_of_markup_colon.
Qed.

Lemma extract_content_cons (seg : MessageSegment) (m : Message) :
  reads_back seg -> extract_content (seg :: m) = __str__ seg ++ extract_content m.
Proof.
  unfold extract_content. destruct seg; simpl; intro H; (reflexivity || contradiction).
Qed.

(** What a text without a match may be followed by: nothing, or a markup. *)
Lemma extract_content_head (m : Message) :
  Forall reads_back m ->
  match m with seg :: _ => is_plain_text seg = false | [] => True end ->
  extract_content m = [] \/ exists r, extract_content m = "<"%char :: r.
Proof.
  destruct m as [|seg m]; [now left|]. intros Hall Hhead. right.
  pose proof (Forall_inv Hall) as Hseg.
  destruct (reads_back_markup _ Hseg Hhead) as (ty & p & Hstr & _).
  rewrite extract_content_cons by exact Hseg. rewrite Hstr.
  now exists ((ty ++ p ++ py ">") ++ extract_content m).
Qed.

(** The loop on a rendered message, entered after [pre] was consumed and
    with the text [t] pending. *)
Lemma construct_loop_rendered (m : Message) :
  Forall reads_back m -> no_adjacent_plain_text m ->
  forall pre t : str,
    (t <> [] -> unescape t = t) ->
    (t <> [] -> match m with seg :: _ => is_plain_text seg = false | [] => True end) ->
    construct_loop (pre ++ t ++ extract_content m) (length pre)
      (scan 0 (length pre + length t) (extract_content m)) =
    Ok (yield_text t ++ m).
Proof.
  induction m as [|seg m IH]; intros Hall Hadj pre t Hun Hhead.
  - change (extract_content []) with (@nil ascii). cbn [scan construct_loop].
    rewrite app_nil_r, slice_suffix. destruct t; simpl; [reflexivity|].
    unfold text. now rewrite Hun.
  - pose proof (Forall_inv Hall) as Hseg. apply Forall_inv_tail in Hall.
    assert (Hadj' : no_adjacent_plain_text m) by (destruct m; [exact I|apply Hadj]).
    rewrite extract_content_cons by exact Hseg.
    destruct (is_plain_text seg) eqn:Eplain.
    + (* a text without a match: nothing is pending, its text becomes pending *)
      destruct seg as [| | | | | | | | |x| |]; try discriminate Eplain.
      cbn [is_plain_text] in Eplain.
      assert (Hnone : finditer x = []) by (now destruct (finditer x)).
      cbn [reads_back] in Hseg. destruct Hseg as (Hne & Hfix & _).
      destruct t as [|c t]; [|now specialize (Hhead ltac:(discriminate))].
      assert (Hnext : match m with s :: _ => is_plain_text s = false | [] => True end).
      { destruct m as [|seg' m']; [exact I|]. destruct Hadj as [Hadj _].
        cbn [is_plain_text] in Hadj. unfold finditer in Hnone.
        fold (finditer x) in Hnone. rewrite Hnone in Hadj. exact Hadj. }
      cbn [__str__ app length]. rewrite Nat.add_0_r.
      rewrite scan_text_block
        by (exact Hnone || exact (extract_content_head Hall Hnext)).
      rewrite IH; auto.
      destruct x; [congruence|]. cbn. unfold text. now rewrite Hfix.
    + (* a markup: the pending text is flushed, the markup yields [seg] *)
      destruct (reads_back_markup _ Hseg Eplain) as (ty & p & Hstr & Hmatch & Hyield).
      rewrite Hstr. rewrite scan_markup by apply Hmatch.
      cbn [construct_loop Match_pos Match_start Match_end]. rewrite Hyield.
      rewrite !Nat.add_0_l.
      replace (pre ++ t ++ markup ty p ++ extract_content m)
        with (pre ++ t ++ (markup ty p ++ extract_content m)) at 1 by reflexivity.
      rewrite slice_middle.
      specialize (IH Hall Hadj' (pre ++ t ++ markup ty p) []).
      replace ((pre ++ t ++ markup ty p) ++ [] ++ extract_content m)
        with (pre ++ t ++ markup ty p ++ extract_content m) in IH
        by (now rewrite <- !app_assoc).
      replace (length (pre ++ t ++ markup ty p) + length (@nil ascii))
        with (length pre + length t + length (markup ty p)) in IH
        by (rewrite !length_app; simpl; lia).
      replace (length (pre ++ t ++ markup ty p))
        with (length pre + length t + length (markup ty p)) in IH
        by (rewrite !length_app; lia).
      rewrite IH; [|congruence|congruence].
      cbn [bind]. simpl yield_text at 2. destruct t; cbn; [reflexivity|].
      unfold text. reflexivity.
Qed.

(** C3, as the code has it.  A message is the result of tokenizing its
    [extract_content()] when every segment reads back and no two texts
    without a match stand in a row.  The segments that read back are: a
    text that is not empty, is left unchanged by [unescape] and holds no
    match of the pattern (a [<] that starts no match does no harm) or is, as
    a whole, one markup that falls back; a mention of a user, role or
    channel whose printed id the pattern reads whole (not empty, no [<], no
    [>] after the first character; for a user, not starting with [!] or
    [&]) and [Snowflake] converts back; a custom emoji with an animated
    flag of true or false, a name and an id without [:], and a parameter
    read whole; a timestamp with seconds not below zero and a style whose
    value is not empty, holds no [<], [>], [:] and looks up to the style. *)
Theorem construct_extract_content (m : Message) :
  Forall reads_back m -> no_adjacent_plain_text m ->
  _construct (extract_content m) = Ok m.
Proof.
  intros Hall Hadj.
  apply (@construct_loop_rendered m Hall Hadj [] []); congruence.
Qed.


(** ** Factories *)

Lemma mapM_Ok {A B} (g : A -> B) (l : list A) :
  mapM (fun a => Ok (g a)) l = Ok (map g l).
Proof.
  induction l as [|a l IH]; simpl; [reflexivity|]. now rewrite IH.
Qed.

(** C10. In [MessageSegment.attachment] a [File] source supplies the bytes
    and the [content] argument is dropped, an [AttachmentSend] source
    supplies the description and the [description] argument is dropped, and
    a source of any other type than [str], [File] or [AttachmentSend] raises
    [TypeError] with a message naming the three. *)
Theorem attachment_source_overrides (description : option str) (content : option bytes) :
  (forall f : File,
      attachment (source_File f) description content =
      Ok (AttachmentSegment (mkAttachmentSend (File_filename f) description)
            (Some (mkFile (File_filename f) (File_content f)))))
  /\ (forall a : AttachmentSend,
         attachment (source_AttachmentSend a) description content =
         Ok (AttachmentSegment
               (mkAttachmentSend (AttachmentSend_filename a) (AttachmentSend_description a))
               (option_map (mkFile (AttachmentSend_filename a)) content)))
  /\ attachment source_other description content =
     Raise (TypeError (py "file must be str, File or AttachmentSend")).
Proof.
  repeat split.
  intro a. unfold attachment. simpl. now destruct content.
Qed.

(** C9. The factory [MessageSegment.component] stores a button or a select
    menu wrapped in an [ActionRow] of one element and any other component
    as it is, so the payload of the segment it returns is never a bare
    button or select menu. *)
Theorem component_wraps_bare (c : Component) :
  exists payload : Component,
    component c = ComponentSegment payload
    /\ is_bare payload = false
    /\ payload = (if is_bare c then ActionRow [c] else c).
Proof.
  destruct c; simpl; eexists; (split; [reflexivity|]); split; reflexivity.
Qed.

(** ** Container *)

(** C7. Adding a string on either side of a message wraps the whole string
    in one text segment, whatever markup it holds: [m + s] is [m] followed
    by [TextSegment s] and [s + m] is [TextSegment s] followed by [m]; so
    [Message() + "hello"] is [[TextSegment "hello"]] and
    ["hello" + Message([TextSegment "!"])] is
    [[TextSegment "hello"; TextSegment "!"]]. *)
Theorem add_str_is_one_text_segment (m : Message) (s : str) :
  __add__ m (operand_str s) = Ok (m ++ [TextSegment s])
  /\ __radd__ m (operand_str s) = Ok (TextSegment s :: m)
  /\ __add__ [] (operand_str (py "hello")) = Ok [TextSegment (py "hello")]
  /\ __radd__ [TextSegment (py "!")] (operand_str (py "hello")) =
     Ok [TextSegment (py "hello"); TextSegment (py "!")].
Proof. repeat split. Qed.

Lemma extract_content_flattened (m : Message) : extract_content m = flattened_text m.
Proof.
  unfold extract_content.
  induction m as [|seg m IH]; [reflexivity|].
  destruct seg; simpl; rewrite <- ?IH; reflexivity.
Qed.

(** C6. [extract_content] is the concatenation, in order, of the render
    forms of the segments of kind text, custom_emoji, mention_user,
    mention_role, mention_everyone, mention_channel and timestamp; embed,
    component, attachment, sticker and reference segments contribute
    nothing.  For [[mention_everyone; text "hi "; mention_user i]] it is
    ["@everyone" + "hi " + "<@" + f"{i}" + ">"]. *)
Theorem extract_content_textual_kinds (m : Message) :
  extract_content m = flattened_text m
  /\ forall i : Snowflake,
       extract_content [mention_everyone; text (py "hi "); mention_user i] =
       py "@everyone" ++ py "hi " ++ (py "<@" ++ format_Snowflake i ++ py ">").
Proof.
  split; [apply extract_content_flattened|].
  intro i. unfold extract_content. simpl. now rewrite app_nil_r.
Qed.

(** ** Inbound adapter *)

(** C8. [from_guild_message] returns, in this order: a mention_everyone
    segment when the flag is set; the segments of the tokenized content
    when the content is not empty; one attachment segment per attachment,
    holding the filename and the description (null unless it is a string)
    and no file; one embed segment per embed; one component segment per
    component (a bare button or select menu in its row).  It raises only
    when the tokenizer does. *)
Theorem from_guild_message_order (message : MessageGet) :
  from_guild_message message =
  (tokens <- match MessageGet_content message with
             | Some (c :: s) => _construct (c :: s)
             | _ => Ok []
             end ;;
   Ok ((if MessageGet_mention_everyone message then [MentionEveryoneSegment] else [])
       ++ tokens
       ++ map (fun a =>
                 AttachmentSegment
                   (mkAttachmentSend (Attachment_filename a)
                      match Attachment_description a with
                      | Present d => Some d
                      | UNSET => None
                      end)
                   None)
            (MessageGet_attachments message)
       ++ map EmbedSegment (MessageGet_embeds message)
       ++ map (fun c => ComponentSegment (if is_bare c then ActionRow [c] else c))
            (MessageGet_components message))).
Proof.
  destruct message as [everyone content atts embs comps].
  unfold from_guild_message, attachment, Message_init. simpl.
  assert (Hcomp : map component comps =
                  map (fun c => ComponentSegment (if is_bare c then ActionRow [c] else c)) comps).
  { apply map_ext. now intros []. }
  rewrite (mapM_Ok (fun a => AttachmentSegment
             (mkAttachmentSend (Attachment_filename a)
                (description_if_str (Attachment_description a))) None)).
  rewrite Hcomp.
  set (toks := match content with Some (c :: s) => _construct (c :: s) | _ => Ok [] end).
  assert (Hdesc : forall l : list Attachment,
    map (fun a => AttachmentSegment (mkAttachmentSend (Attachment_filename a)
                    (description_if_str (Attachment_description a))) None) l =
    map (fun a => AttachmentSegment (mkAttachmentSend (Attachment_filename a)
                    match Attachment_description a with Present d => Some d | UNSET => None end)
                    None) l).
  { intro l. apply map_ext. intro a. now destruct (Attachment_description a). }
  rewrite Hdesc.
  destruct content as [[|c s]|]; subst toks; simpl;
    try destruct (_construct (c :: s)) as [segs|e]; simpl; try reflexivity;
    destruct everyone, atts, embs, comps; simpl;
    rewrite ?app_nil_r, <- ?app_assoc; simpl; reflexivity.
Qed.

(** ** Outbound serializer *)

Lemma comprehension_app {A B} (f : A -> option B) (l1 l2 : list A) :
  comprehension f (l1 ++ l2) = comprehension f l1 ++ comprehension f l2.
Proof.
  induction l1 as [|a l1 IH]; simpl; [reflexivity|].
  destruct (f a); simpl; now rewrite IH.
Qed.

(** Reading a key from the segments selected by type loses nothing when the
    key exists for that type only. *)
Lemma comprehension_getitem {B} (f : MessageSegment -> option B) (kind : str) (m : Message) :
  (forall seg, str_eqb (type seg) kind = false -> f seg = None) ->
  comprehension f (getitem m kind) = comprehension f m.
Proof.
  intro Hf. unfold getitem.
  induction m as [|seg m IH]; simpl; [reflexivity|].
  destruct (str_eqb (type seg) kind) eqn:E; simpl.
  - now rewrite IH.
  - now rewrite (Hf seg E).
Qed.

Lemma getitem_empty (kind : str) (m : Message) :
  or_None (getitem m kind) =
  if existsb (fun seg => str_eqb (type seg) kind) m then Some (getitem m kind) else None.
Proof.
  unfold getitem.
  induction m as [|seg m IH]; simpl; [reflexivity|].
  destruct (str_eqb (type seg) kind); simpl; [reflexivity|exact IH].
Qed.

Lemma nth_error_last {A} (l : list A) (x : A) :
  nth_error (l ++ [x]) (length (l ++ [x]) - 1) = Some x.
Proof.
  rewrite length_app. simpl.
  replace (length l + 1 - 1) with (length l) by lia.
  rewrite nth_error_app2 by lia. now rewrite Nat.sub_diag.
Qed.

Lemma data_reference_selected (seg : MessageSegment) :
  str_eqb (type seg) (py "reference") = false -> data_reference seg = None.
Proof. destruct seg; simpl; intro H; (reflexivity || discriminate). Qed.

Lemma data_attachment_selected (seg : MessageSegment) :
  str_eqb (type seg) (py "attachment") = false -> data_attachment seg = None.
Proof. destruct seg; simpl; intro H; (reflexivity || discriminate). Qed.

Lemma data_file_selected (seg : MessageSegment) :
  str_eqb (type seg) (py "attachment") = false -> data_file seg = None.
Proof. destruct seg; simpl; intro H; (reflexivity || discriminate). Qed.

Lemma last_selected_reference (segs : Message) :
  Forall (fun seg => str_eqb (type seg) (py "reference") = true) segs ->
  match or_None segs with
  | Some l =>
      match nth_error l (length l - 1) with
      | Some seg => data_reference seg
      | None => None
      end
  | None => None
  end =
  match rev (comprehension data_reference segs) with
  | r :: _ => Some r
  | [] => None
  end.
Proof.
  destruct segs as [|s0 segs0] using rev_ind; [reflexivity|].
  intro Hall. clear IHsegs0.
  apply Forall_app in Hall as [_ Hlast].
  apply Forall_inv in Hlast.
  assert (Hne : or_None (segs0 ++ [s0]) = Some (segs0 ++ [s0])) by now destruct segs0.
  rewrite Hne, nth_error_last, comprehension_app, rev_app_distr.
  destruct s0; simpl in Hlast; try discriminate. reflexivity.
Qed.

Lemma message_reference_rev (m : Message) :
  message_reference (parse_message (input_Message m)) =
  match rev (comprehension data_reference m) with
  | r :: _ => Some r
  | [] => None
  end.
Proof.
  unfold parse_message.
  destruct (or_None (getitem m (py "attachment"))); simpl;
    (rewrite last_selected_reference;
     [ now rewrite (comprehension_getitem _ _ _ data_reference_selected)
     | unfold getitem; apply Forall_forall; intros seg Hin;
       now apply filter_In in Hin ]).
Qed.

Lemma comprehension_no_reference (m : Message) :
  forallb (fun seg => negb (is_reference seg)) m = true ->
  comprehension data_reference m = [].
Proof.
  induction m as [|seg m IH]; [reflexivity|]. cbn [forallb].
  intros [Hseg Hm]%andb_true_iff. cbn [comprehension].
  destruct seg; try discriminate Hseg; exact (IH Hm).
Qed.

(** C4. When a message holds a reference segment, [parse_message] sets
    [message_reference] to the payload of the last one: for a message
    [pre ++ ReferenceSegment r :: post] whose part [post] holds no reference
    segment the value is [r], whatever reference segments [pre] holds.  For a
    message without reference segment the key is left out. *)
Theorem parse_message_reference_last (pre post : Message) (r : MessageReference) :
  forallb (fun seg => negb (is_reference seg)) post = true ->
  message_reference (parse_message (input_Message (pre ++ ReferenceSegment r :: post)))
  = Some r
  /\ message_reference (parse_message (input_Message post)) = None.
Proof.
  intro Hpost. rewrite !message_reference_rev.
  rewrite comprehension_app. cbn [comprehension data_reference].
  rewrite (comprehension_no_reference _ Hpost).
  now rewrite rev_app_distr.
Qed.

Lemma attachments_files_selected (m : Message) :
  attachments (parse_message (input_Message m)) =
  (if existsb (fun seg => str_eqb (type seg) (py "attachment")) m
   then Some (comprehension data_attachment m) else None)
  /\ files (parse_message (input_Message m)) =
     (if existsb (fun seg => str_eqb (type seg) (py "attachment")) m
      then Some (comprehension data_file m) else None).
Proof.
  unfold parse_message. rewrite (getitem_empty (py "attachment")).
  destruct (existsb _ m); simpl; [|split; reflexivity].
  now rewrite (comprehension_getitem _ _ _ data_attachment_selected),
              (comprehension_getitem _ _ _ data_file_selected).
Qed.

(** What the serializer reads from the attachment segments, in terms of
    the entries of the message. *)
Lemma attachment_entries_read (m : Message) :
  existsb (fun seg => str_eqb (type seg) (py "attachment")) m
  = match attachment_entries m with [] => false | _ => true end
  /\ comprehension data_attachment m = map fst (attachment_entries m)
  /\ comprehension data_file m = entry_files (attachment_entries m).
Proof.
  induction m as [|seg m (IH1 & IH2 & IH3)]; [repeat split|].
  destruct seg as [a f| | | | | | | | | | |]; simpl; repeat split; try assumption.
  - now rewrite IH2.
  - destruct f; now rewrite IH3.
Qed.

(** C5, the code at work.  With the metadata and the file of every
    attachment segment taken in order as the entries of the message,
    [attachments] is the list of the metadata of the entries and [files] the
    list of the files of the entries that have one, in that order; both
    keys are left out when the message has no attachment segment.  [files]
    is computed inside the branch taken when there is an attachment segment
    and is not passed through [or None] as the other lists are: where no
    entry has a file, [files] is there and is the empty list. *)
Theorem parse_message_attachments_files (m : Message) :
  attachments (parse_message (input_Message m)) =
  match attachment_entries m with
  | [] => None
  | entries => Some (map fst entries)
  end
  /\ files (parse_message (input_Message m)) =
     match attachment_entries m with
     | [] => None
     | entries => Some (entry_files entries)
     end
  /\ (attachment_entries m <> [] -> entry_files (attachment_entries m) = [] ->
      files (parse_message (input_Message m)) = Some []).
Proof.
  destruct (attachments_files_selected m) as [Ha Hf].
  destruct (attachment_entries_read m) as (He & Hda & Hdf).
  rewrite Ha, Hf, He, Hda, Hdf.
  destruct (attachment_entries m) as [|e entries]; repeat split; congruence.
Qed.

(** Three attachment segments of which the first and the third carry a
    file, and two reference segments. *)
Example parse_message_three_attachments (a1 a2 a3 : AttachmentSend) (f1 f3 : File)
    (r1 r2 : MessageReference) :
  let p := parse_message
             (input_Message
                [ReferenceSegment r1; AttachmentSegment a1 (Some f1); AttachmentSegment a2 None;
                 ReferenceSegment r2; AttachmentSegment a3 (Some f3)]) in
  attachments p = Some [a1; a2; a3] /\ files p = Some [f1; f3]
  /\ message_reference p = Some r2.
Proof. repeat split. Qed.

End Properties.

(** * Further properties *)

Section FurtherProperties.

Context {api : DiscordApi}.

(** ** The matches of the pattern *)

Lemma spans_from_le (i j n : nat) (matches : list Match) :
  j <= i -> spans_from i n matches -> spans_from j n matches.
Proof.
  destruct matches as [|embed matches]; [trivial|].
  simpl. intros Hle (H1 & H2). split; [lia|exact H2].
Qed.

Lemma scan_spans (s pre : str) (skip : nat) :
  spans_from (length pre + skip) (length (pre ++ s)) (scan skip (length pre) s).
Proof.
  revert pre skip. induction s as [|c s IH]; intros pre skip; [exact I|].
  assert (Hlen : length (pre ++ c :: s) = length ((pre ++ [c]) ++ s))
    by now rewrite <- app_assoc.
  assert (Hpre : S (length pre) = length (pre ++ [c]))
    by (rewrite length_app; simpl; lia).
  destruct skip as [|k].
  - rewrite scan_unfold.
    destruct (match_here (c :: s)) as [[ty p]|] eqn:E.
    + destruct (match_here_sound _ E) as (_ & _ & _ & r & Hr).
      pose proof (f_equal (@length ascii) Hr) as Hl.
      rewrite length_app, markup_length in Hl. simpl in Hl.
      cbn [spans_from Match_start Match_end]. rewrite length_app. simpl length.
      repeat split; try lia.
      specialize (IH (pre ++ [c]) (2 + length ty + length p - 1)).
      rewrite <- Hpre, <- Hlen in IH. rewrite length_app in IH. simpl length in IH.
      replace (length pre + (2 + length ty + length p))
        with (S (length pre) + (2 + length ty + length p - 1)) by lia.
      exact IH.
    + specialize (IH (pre ++ [c]) 0). rewrite <- Hpre, <- Hlen in IH.
      eapply spans_from_le; [|exact IH]. lia.
  - cbn [scan]. specialize (IH (pre ++ [c]) k). rewrite <- Hpre, <- Hlen in IH.
    eapply spans_from_le; [|exact IH]. lia.
Qed.

(** X1. The matches [finditer] returns follow one another without overlap
    inside the input, and each has [pos] 0, a type among the alternatives of
    the pattern, a parameter that is not empty and holds no [<], and as its
    [group()] the slice of the input from [start()] to [end()]. *)
Theorem finditer_matches_in_order (msg : str) :
  spans_from 0 (length msg) (finditer msg)
  /\ forall embed, In embed (finditer msg) ->
       Match_pos embed = 0
       /\ In (Match_type embed) type_alternatives
       /\ Match_param embed <> []
       /\ free_of (py "<") (Match_param embed) = true
       /\ slice msg (Match_pos embed + Match_start embed)
            (Match_pos embed + Match_end embed) = group embed.
Proof.
  split; [exact (scan_spans msg [] 0)|]. intros embed H. now apply finditer_sound.
Qed.

(** ** The tokenizer, piece by piece *)

Lemma skipn_add_length {A} (pre s : list A) (a : nat) :
  skipn (length pre + a) (pre ++ s) = skipn a s.
Proof. induction pre; simpl; auto. Qed.

Lemma slice_shift (pre s : str) (a b : nat) :
  slice (pre ++ s) (length pre + a) (length pre + b) = slice s a b.
Proof.
  unfold slice. rewrite skipn_add_length. f_equal. lia.
Qed.

Lemma scan_shift (s : str) (skip i d : nat) :
  scan skip (d + i) s = map (shift d) (scan skip i s).
Proof.
  revert skip i. induction s as [|c s IH]; intros skip i; [reflexivity|].
  destruct skip as [|k].
  - rewrite !scan_unfold. destruct (match_here (c :: s)) as [[ty p]|].
    + cbn [map]. unfold shift at 1. cbn [Match_pos Match_start Match_end Match_type Match_param].
      f_equal; [f_equal; lia|].
      replace (S (d + i)) with (d + S i) by lia. apply IH.
    + replace (S (d + i)) with (d + S i) by lia. apply IH.
  - cbn [scan]. replace (S (d + i)) with (d + S i) by lia. apply IH.
Qed.

Lemma yield_match_shift (d : nat) (embed : Match) :
  yield_match (shift d embed) = yield_match embed.
Proof. now destruct embed. Qed.

(** The loop does the same on a text put behind a prefix. *)
Lemma construct_loop_shift (pre s : str) (matches : list Match) (text_begin : nat) :
  construct_loop (pre ++ s) (length pre + text_begin) (map (shift (length pre)) matches) =
  construct_loop s text_begin matches.
Proof.
  revert text_begin. induction matches as [|embed matches IH]; intro text_begin.
  - cbn [map construct_loop]. rewrite length_app, slice_shift. reflexivity.
  - cbn [map construct_loop]. rewrite yield_match_shift.
    cbn [shift Match_pos Match_start Match_end].
    replace (Match_pos embed + (length pre + Match_start embed))
      with (length pre + (Match_pos embed + Match_start embed)) by lia.
    replace (Match_pos embed + (length pre + Match_end embed))
      with (length pre + (Match_pos embed + Match_end embed)) by lia.
    now rewrite slice_shift, IH.
Qed.

Lemma construct_behind (pre s : str) :
  construct_loop (pre ++ s) (length pre) (scan 0 (length pre) s) = _construct s.
Proof.
  unfold _construct, finditer.
  rewrite <- (Nat.add_0_r (length pre)) at 2. rewrite scan_shift.
  rewrite <- (Nat.add_0_r (length pre)) at 1. apply construct_loop_shift.
Qed.

Lemma construct_empty : _construct [] = Ok [].
Proof. reflexivity. Qed.



Lemma construct_step_match (t ty p rest : str) :
  free_of (py "<") t = true ->
  match_here (markup ty p ++ rest) = Some (ty, p) ->
  _construct (t ++ markup ty p ++ rest) =
  (segs <- yield_match
             (mkMatch 0 (length t) (length t + length (markup ty p)) ty p) ;;
   tokens <- _construct rest ;;
   Ok (yield_text t ++ segs ++ tokens)).
Proof.
  intros Ht Hmatch.
  unfold _construct at 1, finditer.
  rewrite scan_text by exact Ht. rewrite scan_markup by exact Hmatch.
  cbn [construct_loop Match_pos Match_start Match_end]. rewrite !Nat.add_0_l.
  assert (Hs : slice (t ++ markup ty p ++ rest) 0 (length t) = t)
    by exact (slice_middle [] t _).
  pose proof (construct_behind (t ++ markup ty p) rest) as Hb.
  rewrite <- app_assoc, length_app in Hb.
  now rewrite Hs, Hb.
Qed.


Lemma construct_markup_alone (ty p : str) :
  match_here (markup ty p ++ []) = Some (ty, p) ->
  _construct (markup ty p) = yield_match (mkMatch 0 0 (length (markup ty p)) ty p).
Proof.
  intro Hmatch.
  pose proof (@construct_step_match [] ty p [] eq_refl Hmatch) as H.
  cbn [app length] in H. rewrite app_nil_r in H. rewrite H, construct_empty.
  cbn [Nat.add]. destruct (yield_match _) as [segs|e]; cbn; [|reflexivity].
  now rewrite app_nil_r.
Qed.

(** X4. The mention forms.  For a parameter that is not empty and holds no
    [<] or [>]: [<@!p>] is a user mention, [<@&p>] a role mention, [<#p>] a
    channel mention, and [<@p>] a user mention when [p] does not start with
    [!] or [&]; the id is [Snowflake(p)], and the tokenizer raises what that
    call raises. *)
Theorem construct_mentions (p : str) :
  p <> [] -> free_of (py "<>") p = true ->
  _construct (py "<@!" ++ p ++ py ">") = (id <- Snowflake_of p ;; Ok [MentionUserSegment id])
  /\ _construct (py "<@&" ++ p ++ py ">") = (id <- Snowflake_of p ;; Ok [MentionRoleSegment id])
  /\ _construct (py "<#" ++ p ++ py ">") = (id <- Snowflake_of p ;; Ok [MentionChannelSegment id])
  /\ (free_of (py "!&") (firstn 1 p) = true ->
      _construct (py "<@" ++ p ++ py ">") = (id <- Snowflake_of p ;; Ok [MentionUserSegment id])).
Proof.
  intros Hne Hp.
  change (py "<@!" ++ p ++ py ">") with (markup (py "@!") p).
  change (py "<@&" ++ p ++ py ">") with (markup (py "@&") p).
  change (py "<#" ++ p ++ py ">") with (markup (py "#") p).
  change (py "<@" ++ p ++ py ">") with (markup (py "@") p).
  repeat split; [| | |intro Hfirst]; rewrite construct_markup_alone; try reflexivity.
  - now apply match_here_markup_bang.
  - apply match_here_markup; [simpl; tauto|exact Hne|exact Hp].
  - apply match_here_markup; [simpl; tauto|exact Hne|exact Hp].
  - now apply match_here_markup_at.
Qed.

(** X5. The custom-emoji forms.  For a name and an id without [<], [>] and
    [:], [<:name:id>] is a custom emoji that is not animated and
    [<a:name:id>] one that is; neither raises, and the name or the id may be
    empty. *)
Theorem construct_custom_emoji (name id : str) :
  free_of (py "<>:") name = true -> free_of (py "<>:") id = true ->
  _construct (py "<:" ++ name ++ py ":" ++ id ++ py ">") =
    Ok [CustomEmojiSegment name id (Some false)]
  /\ _construct (py "<a:" ++ name ++ py ":" ++ id ++ py ">") =
    Ok [CustomEmojiSegment name id (Some true)].
Proof.
  intros Hname Hid.
  assert (Hp : free_of (py "<>") (name ++ py ":" ++ id) = true).
  { rewrite free_of_app. apply andb_true_iff.
    split; [now apply free_of_markup_angle|].
    change (py ":" ++ id) with (":"%char :: id). rewrite free_of_cons.
    now rewrite (free_of_markup_angle _ Hid). }
  assert (Hne : name ++ py ":" ++ id <> []) by now destruct name.
  replace (py "<:" ++ name ++ py ":" ++ id ++ py ">")
    with (markup (py ":") (name ++ py ":" ++ id))
    by (unfold markup; simpl; now rewrite <- !app_assoc).
  replace (py "<a:" ++ name ++ py ":" ++ id ++ py ">")
    with (markup (py "a:") (name ++ py ":" ++ id))
    by (unfold markup; simpl; now rewrite <- !app_assoc).
  split; apply construct_single_markup.
  - apply match_here_markup; [simpl; tauto|exact Hne|exact Hp].
  - intros i j. apply (@yield_custom_emoji api i j name id false); now apply free_of_markup_colon.
  - apply match_here_markup; [simpl; tauto|exact Hne|exact Hp].
  - intros i j. apply (@yield_custom_emoji api i j name id true); now apply free_of_markup_colon.
Qed.


(** *** Fallback and failure *)










(** *** What the tokenizer never yields *)

Lemma int_nonneg (s : str) (t : Z) : int s = Ok t -> (0 <= t)%Z.
Proof.
  unfold int. destruct (NilEmpty.uint_of_string _); [|discriminate].
  intros [= <-]. apply N2Z.is_nonneg.
Qed.

Lemma isdigit_group (embed : Match) : isdigit (group embed) = false.
Proof. reflexivity. Qed.

Lemma yield_match_kinds (embed : Match) (segs : list MessageSegment) :
  yield_match embed = Ok segs -> forallb tokenizer_kind segs = true.
Proof.
  unfold yield_match. rewrite isdigit_group.
  set (cut := split ":" (Match_param embed)).
  repeat match goal with
         | |- context [if ?b then _ else _] => destruct b
         end;
    try (destruct (Snowflake_of _); cbn; intros [= <-]; reflexivity);
    try (intros [= <-]; reflexivity).
  destruct (int (nth 0 cut [])) as [t|] eqn:Et; cbn; [|discriminate].
  destruct (TimeStampStyle_of _); cbn; intros [= <-]. cbn.
  apply int_nonneg in Et. rewrite andb_true_r. now apply Z.leb_le.
Qed.

Lemma yield_text_kinds (content : str) : forallb tokenizer_kind (yield_text content) = true.
Proof. now destruct content. Qed.

Lemma construct_loop_kinds (msg : str) (matches : list Match) (text_begin : nat)
    (segs : list MessageSegment) :
  construct_loop msg text_begin matches = Ok segs -> forallb tokenizer_kind segs = true.
Proof.
  revert text_begin segs. induction matches as [|embed matches IH]; intros text_begin segs.
  - cbn. intros [= <-]. apply yield_text_kinds.
  - cbn [construct_loop].
    destruct (yield_match embed) as [here|] eqn:Ehere; cbn [bind]; [|discriminate].
    destruct (construct_loop msg _ matches) as [rest|] eqn:Erest; cbn [bind]; [|discriminate].
    intros [= <-]. rewrite !forallb_app, yield_text_kinds.
    now rewrite (yield_match_kinds _ Ehere), (IH _ _ Erest).
Qed.

(** X7. Whatever the input, the segments the tokenizer returns are text
    segments, mentions of a user, role or channel, custom emoji with the
    animated flag set to true or false, and timestamps with a style and
    seconds not below zero: never a mention_everyone segment, never a
    timestamp without style, never an attachment, sticker, embed, component
    or reference segment. *)
Theorem construct_kinds (msg : str) (segs : list MessageSegment) :
  _construct msg = Ok segs -> forallb tokenizer_kind segs = true.
Proof. apply construct_loop_kinds. Qed.

(** *** Tokenize, then render *)

Lemma extract_content_app (m1 m2 : Message) :
  extract_content (m1 ++ m2) = extract_content m1 ++ extract_content m2.
Proof. unfold extract_content. now rewrite filter_app, map_app, concat_app. Qed.

Lemma split_nonempty (p : str) : split ":" p <> [].
Proof.
  destruct p as [|c p]; cbn [split]; [discriminate|].
  destruct (Ascii.eqb c ":"); [discriminate|]. now destruct (split ":" p).
Qed.

Lemma split_one_inv (p b : str) : split ":" p = [b] -> p = b.
Proof.
  revert b. induction p as [|c p IH]; intro b; cbn [split].
  - now intros [= <-].
  - pose proof (split_nonempty p) as Hne.
    destruct (Ascii.eqb c ":"); [intros [= _ H]; congruence|].
    destruct (split ":" p) as [|h l] eqn:E; [congruence|].
    intros [= <- ->]. f_equal. now apply IH.
Qed.

Lemma split_two_inv (p a b : str) : split ":" p = [a; b] -> p = a ++ ":"%char :: b.
Proof.
  revert a. induction p as [|c p IH]; intro a; cbn [split]; [discriminate|].
  pose proof (split_nonempty p) as Hne.
  destruct (Ascii.eqb c ":") eqn:Ec.
  - apply Ascii.eqb_eq in Ec. subst c. intros [= <- H]. apply split_one_inv in H. now subst.
  - destruct (split ":" p) as [|h l] eqn:E; [congruence|]. intros [= <- ->].
    rewrite (IH h eq_refl). reflexivity.
Qed.

Lemma yield_renders_back (embed : Match) :
  emoji_or_malformed embed = true ->
  unescape (group embed) = group embed ->
  exists segs, yield_match embed = Ok segs /\ extract_content segs = group embed.
Proof.
  intros Hkind Hfix.
  destruct (malformed embed) eqn:Ebad.
  - exists [TextSegment (unescape (group embed))]. split; [now apply yield_malformed|].
    unfold extract_content. cbn. now rewrite app_nil_r.
  - unfold emoji_or_malformed in Hkind. rewrite Ebad, orb_false_r in Hkind.
    unfold malformed in Ebad. rewrite Hkind in Ebad. cbn [andb] in Ebad.
    apply orb_false_iff in Ebad as [Ecut _]. apply negb_false_iff in Ecut.
    destruct embed as [pos i j ty p]. cbn [Match_type Match_param] in *.
    destruct (split ":" p) as [|a [|b [|c l]]] eqn:Esplit; try discriminate Ecut.
    pose proof (split_two_inv _ Esplit) as Hp.
    unfold str_in in Hkind. simpl existsb in Hkind. rewrite orb_false_r in Hkind.
    exists [CustomEmojiSegment a b (Some (str_eqb ty (py "a:")))].
    apply orb_true_iff in Hkind as [Hty|Hty]; apply str_eqb_eq in Hty; subst ty;
      (split;
       [ unfold yield_match; cbn [Match_type Match_param]; rewrite Esplit; reflexivity
       | unfold extract_content, group, markup; cbn; rewrite Hp, app_nil_r;
         now rewrite <- !app_assoc ]).
Qed.

(** The loop on the rest [s] of an input, entered after [pre] was consumed
    and with the text [t] pending, when every match renders back. *)
Lemma construct_loop_renders_back (n : nat) :
  forall s : str, length s <= n ->
  forall pre t : str,
    Forall (fun embed => exists segs,
                yield_match embed = Ok segs /\ extract_content segs = group embed)
      (scan 0 (length pre + length t) s) ->
    (forall a b, unescape (slice (pre ++ t ++ s) a b) = slice (pre ++ t ++ s) a b) ->
    exists segs,
      construct_loop (pre ++ t ++ s) (length pre) (scan 0 (length pre + length t) s) = Ok segs
      /\ extract_content segs = t ++ s.
Proof.
  assert (Htext : forall pre t s : str,
             (forall a b, unescape (slice (pre ++ t ++ s) a b) = slice (pre ++ t ++ s) a b) ->
             extract_content (yield_text t) = t).
  { intros pre t s Hfix. destruct t as [|c t]; [reflexivity|].
    unfold extract_content. cbn. rewrite app_nil_r.
    rewrite <- (slice_middle pre (c :: t) s) at 2. rewrite <- (slice_middle pre (c :: t) s) at 1.
    apply Hfix. }
  induction n as [|n IH]; intros s Hlen pre t Hall Hfix.
  - destruct s; [|simpl in Hlen; lia].
    cbn [scan construct_loop]. eexists. split; [reflexivity|].
    rewrite !app_nil_r in *. rewrite slice_suffix.
    apply (Htext pre t []). now rewrite !app_nil_r.
  - destruct s as [|c s].
    { cbn [scan construct_loop]. eexists. split; [reflexivity|].
      rewrite !app_nil_r in *. rewrite slice_suffix.
      apply (Htext pre t []). now rewrite !app_nil_r. }
    destruct (match_here (c :: s)) as [[ty p]|] eqn:E.
    + (* a match starts here *)
      destruct (match_here_sound _ E) as (_ & _ & _ & r & Hr).
      rewrite Hr in *. rewrite scan_markup in * by exact E.
      apply Forall_cons_iff in Hall as [(here & Hhere & Hrender) Hall].
      assert (Hr_len : length r <= n).
      { rewrite length_app, markup_length in Hlen. lia. }
      specialize (IH r Hr_len (pre ++ t ++ markup ty p) []).
      replace (length (pre ++ t ++ markup ty p) + length (@nil ascii))
        with (length pre + length t + length (markup ty p)) in IH
        by (rewrite !length_app; simpl; lia).
      replace ((pre ++ t ++ markup ty p) ++ [] ++ r)
        with (pre ++ t ++ markup ty p ++ r) in IH by (now rewrite <- !app_assoc).
      destruct (IH Hall Hfix) as (rest & Hrest & Hrest_text).
      replace (length (pre ++ t ++ markup ty p))
        with (length pre + length t + length (markup ty p)) in Hrest
        by (rewrite !length_app; lia).
      cbn [construct_loop Match_pos Match_start Match_end]. rewrite !Nat.add_0_l.
      rewrite Hhere, Hrest. cbn [bind]. eexists. split; [reflexivity|].
      rewrite slice_middle, !extract_content_app, Hrender, Hrest_text.
      rewrite (Htext pre t _ Hfix). reflexivity.
    + (* a character of text *)
      rewrite scan_unfold, E in *.
      specialize (IH s ltac:(simpl in Hlen; lia) pre (t ++ [c])).
      replace (length pre + length (t ++ [c])) with (S (length pre + length t)) in IH
        by (rewrite length_app; simpl; lia).
      replace (pre ++ (t ++ [c]) ++ s) with (pre ++ t ++ c :: s) in IH
        by (now rewrite <- !app_assoc).
      destruct (IH Hall Hfix) as (segs & Hsegs & Htxt).
      exists segs. split; [exact Hsegs|]. now rewrite Htxt, <- app_assoc.
Qed.

(** X8. Tokenize, then render.  When every match of the input is of
    custom-emoji form or malformed (a timestamp form whose first part is not
    all digits) and [unescape] leaves every slice of the input unchanged,
    the tokenizer returns, and the flattened text of what it returns is the
    input again. *)
Theorem construct_renders_back (msg : str) :
  forallb emoji_or_malformed (finditer msg) = true ->
  (forall a b, unescape (slice msg a b) = slice msg a b) ->
  exists segs, _construct msg = Ok segs /\ extract_content segs = msg.
Proof.
  intros Hkinds Hfix.
  apply (@construct_loop_renders_back (length msg) msg (le_n _) [] []); [|exact Hfix].
  apply Forall_forall. intros embed Hin.
  apply yield_renders_back.
  - rewrite forallb_forall in Hkinds. now apply Hkinds.
  - destruct (finditer_sound _ _ Hin) as (_ & _ & _ & _ & Hslice).
    rewrite <- Hslice. apply Hfix.
Qed.



(** ** Container *)

(** X9. The flattened text of a sum is the concatenation of the flattened
    texts of its operands, a string operand counting as itself: [m + other]
    and [other + m] never raise, and adding a string appends (or prepends)
    it to the flattened text character for character, markup or not. *)
Theorem add_extract_content (m : Message) (other : operand) :
  exists r l,
    __add__ m other = Ok r /\ __radd__ m other = Ok l
    /\ extract_content r = extract_content m ++ operand_text other
    /\ extract_content l = operand_text other ++ extract_content m.
Proof.
  destruct other as [s|seg|segs]; do 2 eexists;
    (split; [reflexivity|]); (split; [reflexivity|]);
    rewrite ?extract_content_app; split; try reflexivity;
    unfold extract_content; cbn; now rewrite app_nil_r.
Qed.

(** ** Outbound serializer *)

(** X10. [parse_message] on a bare string returns the string as [content],
    character for character, and no other key; on the empty string it
    returns the empty mapping.  The string is not tokenized. *)
Theorem parse_message_str (s : str) :
  parse_message (input_str s) = content_only (or_None s).
Proof.
  unfold parse_message, content_only, extract_content. cbn. now rewrite app_nil_r.
Qed.

Lemma payloads_or_None {B} (f : MessageSegment -> option B) (kind : str) (m : Message) :
  (forall seg, str_eqb (type seg) kind = false -> f seg = None) ->
  (forall seg, str_eqb (type seg) kind = true -> f seg <> None) ->
  or_None (comprehension f m) =
  if existsb (fun seg => str_eqb (type seg) kind) m then Some (comprehension f m) else None.
Proof.
  intros Hout Hin.
  induction m as [|seg m IH]; [reflexivity|]. cbn [existsb comprehension].
  destruct (str_eqb (type seg) kind) eqn:E; cbn [orb].
  - specialize (Hin seg E). now destruct (f seg).
  - rewrite (Hout seg E). exact IH.
Qed.

Lemma selected_payloads {B} (f : MessageSegment -> option B) (kind : str) (m : Message) :
  (forall seg, str_eqb (type seg) kind = false -> f seg = None) ->
  (forall seg, str_eqb (type seg) kind = true -> f seg <> None) ->
  match or_None (getitem m kind) with
  | Some segs => Some (comprehension f segs)
  | None => None
  end = or_None (comprehension f m).
Proof.
  intros Hout Hin.
  rewrite (payloads_or_None f kind m Hout Hin), getitem_empty.
  destruct (existsb _ m); [|reflexivity].
  now rewrite (comprehension_getitem _ _ _ Hout).
Qed.

Ltac by_kind := intros []; cbn; intro; (reflexivity || discriminate).

Lemma parse_message_fields (m : Message) :
  parse_message (input_Message m) =
  mkPayload (or_None (extract_content m))
    (or_None (comprehension data_embed m))
    match rev (comprehension data_reference m) with r :: _ => Some r | [] => None end
    (or_None (comprehension data_component m))
    (or_None (comprehension data_id m))
    (if existsb (fun seg => str_eqb (type seg) (py "attachment")) m
     then Some (comprehension data_file m) else None)
    (or_None (comprehension data_attachment m)).
Proof.
  unfold parse_message.
  rewrite (@selected_payloads _ data_embed (py "embed") m) by by_kind.
  rewrite (@selected_payloads _ data_component (py "component") m) by by_kind.
  rewrite (@selected_payloads _ data_id (py "sticker") m) by by_kind.
  rewrite (@last_selected_reference api (getitem m (py "reference")))
    by (unfold getitem; apply Forall_forall; intros seg Hin; now apply filter_In in Hin).
  rewrite (comprehension_getitem _ _ _ data_reference_selected).
  rewrite (@payloads_or_None _ data_attachment (py "attachment") m) by by_kind.
  rewrite (getitem_empty (py "attachment")).
  destruct (existsb _ m); cbn; [|reflexivity].
  now rewrite (comprehension_getitem _ _ _ data_attachment_selected),
              (comprehension_getitem _ _ _ data_file_selected).
Qed.

(** X11. In the outbound mapping [content] is the flattened text, [embeds]
    the payloads of all embed segments, [components] the payloads of all
    component segments and [sticker_ids] the ids of all sticker segments,
    each in the order of the segments, and each key is left out when its
    value would be empty: none of the four is ever the empty string or the
    empty list. *)
Theorem parse_message_lists (m : Message) :
  let p := parse_message (input_Message m) in
  content p = or_None (extract_content m)
  /\ embeds p = or_None (comprehension data_embed m)
  /\ components p = or_None (comprehension data_component m)
  /\ sticker_ids p = or_None (comprehension data_id m)
  /\ content p <> Some [] /\ embeds p <> Some [] /\ components p <> Some []
  /\ sticker_ids p <> Some [].
Proof.
  cbv zeta. rewrite parse_message_fields. cbn [content embeds components sticker_ids].
  repeat split;
    match goal with |- or_None ?l <> _ => now destruct l end.
Qed.

Lemma comprehension_filter {B} (f : MessageSegment -> option B)
    (keep : MessageSegment -> bool) (m : Message) :
  (forall seg, keep seg = false -> f seg = None) ->
  comprehension f (filter keep m) = comprehension f m.
Proof.
  intro H. induction m as [|seg m IH]; [reflexivity|]. cbn [filter comprehension].
  destruct (keep seg) eqn:E; cbn [comprehension]; [now rewrite IH|].
  now rewrite (H seg E).
Qed.

Lemma comprehension_filter_none {B} (f : MessageSegment -> option B)
    (keep : MessageSegment -> bool) (m : Message) :
  (forall seg, keep seg = true -> f seg = None) ->
  comprehension f (filter keep m) = [].
Proof.
  intro H. induction m as [|seg m IH]; [reflexivity|]. cbn [filter].
  destruct (keep seg) eqn:E; cbn [comprehension]; [|exact IH].
  now rewrite (H seg E).
Qed.

Lemma existsb_filter {A} (p keep : A -> bool) (l : list A) :
  (forall a, p a = true -> keep a = true) ->
  existsb p (filter keep l) = existsb p l.
Proof.
  intro H. induction l as [|a l IH]; [reflexivity|]. cbn [filter existsb].
  destruct (keep a) eqn:E; cbn [existsb]; [now rewrite IH|].
  destruct (p a) eqn:Ep; [apply H in Ep; congruence|]. exact IH.
Qed.

Lemma existsb_filter_none {A} (p keep : A -> bool) (l : list A) :
  (forall a, keep a = true -> p a = false) ->
  existsb p (filter keep l) = false.
Proof.
  intro H. induction l as [|a l IH]; [reflexivity|]. cbn [filter].
  destruct (keep a) eqn:E; cbn [existsb]; [|exact IH].
  now rewrite (H a E).
Qed.

Lemma extract_content_filter_textual (m : Message) :
  extract_content (filter is_textual m) = extract_content m
  /\ extract_content (filter (fun seg => negb (is_textual seg)) m) = [].
Proof.
  unfold extract_content.
  induction m as [|seg m [IH1 IH2]]; [split; reflexivity|].
  destruct seg; cbn in *; rewrite ?IH1, ?IH2; split; reflexivity.
Qed.

(** X12. The textual segments of a message and the others are serialized
    apart: the message reduced to its text, mention, custom-emoji and
    timestamp segments serializes to the [content] of the whole message and
    nothing else, and the message with those segments removed serializes to
    every other key of the whole message and no [content]. *)
Theorem parse_message_independent (m : Message) :
  let p := parse_message (input_Message m) in
  parse_message (input_Message (filter is_textual m)) = content_only (content p)
  /\ parse_message (input_Message (filter (fun seg => negb (is_textual seg)) m)) =
     mkPayload None (embeds p) (message_reference p) (components p) (sticker_ids p)
       (files p) (attachments p).
Proof.
  cbv zeta. rewrite !parse_message_fields.
  cbn [content embeds message_reference components sticker_ids files attachments].
  destruct (extract_content_filter_textual m) as [Htext Hrest].
  split.
  - rewrite Htext.
    rewrite !comprehension_filter_none by by_kind.
    rewrite existsb_filter_none by by_kind.
    reflexivity.
  - rewrite Hrest.
    rewrite !comprehension_filter by by_kind.
    rewrite existsb_filter by by_kind.
    reflexivity.
Qed.

(** ** Inbound adapter, then outbound serializer *)

Lemma from_guild_message_segments (message : MessageGet) (m : Message) :
  from_guild_message message = Ok m ->
  exists tokens,
    match MessageGet_content message with
    | Some (c :: s) => _construct (c :: s)
    | _ => Ok []
    end = Ok tokens
    /\ m = (if MessageGet_mention_everyone message then [MentionEveryoneSegment] else [])
           ++ tokens
           ++ map (fun a => AttachmentSegment (metadata a) None) (MessageGet_attachments message)
           ++ map EmbedSegment (MessageGet_embeds message)
           ++ map (fun c => ComponentSegment (in_row c)) (MessageGet_components message).
Proof.
  destruct message as [everyone content atts embs comps].
  unfold from_guild_message, attachment, Message_init. simpl.
  rewrite (mapM_Ok (fun a => AttachmentSegment
             (mkAttachmentSend (Attachment_filename a)
                (description_if_str (Attachment_description a))) None)).
  assert (Hcomp : map component comps = map (fun c => ComponentSegment (in_row c)) comps).
  { apply map_ext. now intros []. }
  rewrite Hcomp. unfold metadata.
  destruct content as [[|c s]|]; cbn [bind];
    try destruct (_construct (c :: s)) as [tokens|e]; cbn [bind];
    try (destruct (nonempty atts); discriminate);
    destruct everyone, atts, embs, comps; cbn; intros [= <-]; eexists;
    (split; [reflexivity|]); cbn; rewrite ?app_nil_r, <- ?app_assoc; reflexivity.
Qed.

Lemma comprehension_none {B} (f : MessageSegment -> option B) (l : Message) :
  (forall seg, In seg l -> f seg = None) -> comprehension f l = [].
Proof.
  induction l as [|seg l IH]; intro H; [reflexivity|]. cbn [comprehension].
  rewrite (H seg (or_introl eq_refl)). apply IH. intros seg' Hin. apply H. now right.
Qed.

Lemma comprehension_map {A B} (f : MessageSegment -> option B) (g : A -> MessageSegment)
    (h : A -> B) (l : list A) :
  (forall a, f (g a) = Some (h a)) -> comprehension f (map g l) = map h l.
Proof.
  intro H. induction l as [|a l IH]; [reflexivity|]. cbn [map comprehension].
  now rewrite H, IH.
Qed.

Lemma comprehension_map_none {A B} (f : MessageSegment -> option B) (g : A -> MessageSegment)
    (l : list A) :
  (forall a, f (g a) = None) -> comprehension f (map g l) = [].
Proof.
  intro H. induction l as [|a l IH]; [reflexivity|]. cbn [map comprehension].
  now rewrite H, IH.
Qed.

Lemma tokens_hold_no_payload {B} (f : MessageSegment -> option B) (tokens : Message) :
  (forall seg, tokenizer_kind seg = true -> f seg = None) ->
  forallb tokenizer_kind tokens = true -> comprehension f tokens = [].
Proof.
  intros Hf Hk. apply comprehension_none. intros seg Hin. apply Hf.
  rewrite forallb_forall in Hk. now apply Hk.
Qed.

Ltac no_payload := intros []; cbn; intro; (reflexivity || discriminate).

(** X13. Serializing a received message.  When [from_guild_message]
    returns a message, [parse_message] on it gives the received embeds as
    [embeds], the received components (a bare button or select menu in its
    row) as [components], the filename and description of the received
    attachments as [attachments], each left out when there is none, and
    never a [message_reference] or [sticker_ids]; [files] never holds a
    file: it is the empty list when there are attachments and left out
    otherwise. *)
Theorem parse_message_from_guild_message (message : MessageGet) (m : Message) :
  from_guild_message message = Ok m ->
  let p := parse_message (input_Message m) in
  embeds p = or_None (MessageGet_embeds message)
  /\ components p = or_None (map in_row (MessageGet_components message))
  /\ attachments p = or_None (map metadata (MessageGet_attachments message))
  /\ files p = (if nonempty (MessageGet_attachments message) then Some [] else None)
  /\ message_reference p = None
  /\ sticker_ids p = None.
Proof.
  intro H. destruct (from_guild_message_segments _ H) as (tokens & Htok & ->).
  assert (Hkinds : forallb tokenizer_kind tokens = true).
  { destruct (MessageGet_content message) as [[|c s]|];
      try (injection Htok as <-; reflexivity).
    exact (construct_loop_kinds _ _ _ Htok). }
  cbv zeta. rewrite parse_message_fields.
  cbn [embeds components attachments files message_reference sticker_ids].
  rewrite !comprehension_app.
  rewrite !(tokens_hold_no_payload _ tokens) by (try exact Hkinds; no_payload).
  set (gA := fun a : Attachment => AttachmentSegment (metadata a) None).
  set (gC := fun c : Component => ComponentSegment (in_row c)).
  rewrite (@comprehension_map_none _ _ data_embed gA),
    (@comprehension_map_none _ _ data_embed gC),
    (@comprehension_map_none _ _ data_component gA),
    (@comprehension_map_none _ _ data_component EmbedSegment),
    (@comprehension_map_none _ _ data_id gA),
    (@comprehension_map_none _ _ data_id EmbedSegment),
    (@comprehension_map_none _ _ data_id gC),
    (@comprehension_map_none _ _ data_reference gA),
    (@comprehension_map_none _ _ data_reference EmbedSegment),
    (@comprehension_map_none _ _ data_reference gC),
    (@comprehension_map_none _ _ data_attachment EmbedSegment),
    (@comprehension_map_none _ _ data_attachment gC),
    (@comprehension_map_none _ _ data_file gA),
    (@comprehension_map_none _ _ data_file EmbedSegment),
    (@comprehension_map_none _ _ data_file gC)
    by reflexivity.
  rewrite (@comprehension_map _ _ data_embed EmbedSegment (fun e => e)) by reflexivity.
  rewrite (@comprehension_map _ _ data_component gC in_row) by reflexivity.
  rewrite (@comprehension_map _ _ data_attachment gA metadata) by reflexivity.
  rewrite map_id.
  assert (Hflag : forall B (f : MessageSegment -> option B),
             f MentionEveryoneSegment = None ->
             comprehension f (if MessageGet_mention_everyone message
                              then [MentionEveryoneSegment] else []) = []).
  { intros B f Hf. destruct (MessageGet_mention_everyone message); cbn; now rewrite ?Hf. }
  rewrite !Hflag by reflexivity. cbn [app]. rewrite !app_nil_r.
  repeat split.
  rewrite !existsb_app.
  assert (H1 : existsb (fun seg => str_eqb (type seg) (py "attachment"))
                 (if MessageGet_mention_everyone message then [MentionEveryoneSegment] else [])
               = false) by now destruct (MessageGet_mention_everyone message).
  assert (H2 : existsb (fun seg => str_eqb (type seg) (py "attachment")) tokens = false).
  { clear -Hkinds. induction tokens as [|seg tokens IH]; [reflexivity|].
    cbn [forallb existsb] in Hkinds |- *. apply andb_true_iff in Hkinds as [Hseg Hrest].
    rewrite (IH Hrest), orb_false_r. destruct seg; try discriminate Hseg; reflexivity. }
  assert (H3 : forall A (g : A -> MessageSegment) (l : list A),
             (forall a, str_eqb (type (g a)) (py "attachment") = false) ->
             existsb (fun seg => str_eqb (type seg) (py "attachment")) (map g l) = false).
  { intros A g l Hg. induction l as [|a l IH]; [reflexivity|].
    cbn [map existsb]. now rewrite Hg, IH. }
  rewrite H1, H2, (H3 _ EmbedSegment), (H3 _ gC) by reflexivity. cbn [orb].
  rewrite orb_false_r.
  destruct (MessageGet_attachments message); reflexivity.
Qed.

(** X14. The message [from_guild_message] returns starts with a
    mention_everyone segment exactly when the flag of the event is set, and
    holds no other one: the content never brings one in, even when it
    reads [@everyone]. *)
Theorem from_guild_message_mention_everyone (message : MessageGet) (m : Message) :
  from_guild_message message = Ok m ->
  exists rest,
    m = (if MessageGet_mention_everyone message then [MentionEveryoneSegment] else []) ++ rest
    /\ ~ In MentionEveryoneSegment rest.
Proof.
  intro H. destruct (from_guild_message_segments _ H) as (tokens & Htok & ->).
  assert (Hkinds : forallb tokenizer_kind tokens = true).
  { destruct (MessageGet_content message) as [[|c s]|];
      try (injection Htok as <-; reflexivity).
    exact (construct_loop_kinds _ _ _ Htok). }
  eexists. split; [reflexivity|].
  rewrite !in_app_iff, !in_map_iff. intros [Hin|[Hin|[Hin|Hin]]].
  - rewrite forallb_forall in Hkinds. now apply Hkinds in Hin.
  - now destruct Hin as (a & Ha & _).
  - now destruct Hin as (a & Ha & _).
  - now destruct Hin as (a & Ha & _).
Qed.

(** ** Factories *)

(** X15. Whatever its source, the segment [MessageSegment.attachment]
    returns holds a file exactly when bytes were given (the [content]
    argument for a filename or an [AttachmentSend], always for a [File]),
    and the file has the filename of the attachment metadata. *)
Theorem attachment_file_matches (file : attachment_source) (description : option str)
    (content : option bytes) (seg : MessageSegment) :
  attachment file description content = Ok seg ->
  exists a f,
    seg = AttachmentSegment a f
    /\ (forall x, f = Some x -> File_filename x = AttachmentSend_filename a)
    /\ (f = None <->
        match file with
        | source_File _ => False
        | _ => content = None
        end).
Proof.
  unfold attachment.
  destruct file as [s|x|a|]; cbn; [| | |discriminate];
    try destruct content as [c|]; intros [= <-]; do 2 eexists;
    (split; [reflexivity|]); split;
    try (intros x0 [= <-]; reflexivity); try (intros x0 H; discriminate H);
    split; try discriminate; try contradiction; try reflexivity.
Qed.

(** X16. Putting a component in its row is idempotent: the payload a
    component segment holds, passed through [MessageSegment.component]
    again, gives the same segment. *)
Theorem component_idempotent (c : Component) :
  component c = ComponentSegment (in_row c)
  /\ component (in_row c) = component c.
Proof. destruct c; split; reflexivity. Qed.

End FurtherProperties.

(** ** The reference factory *)

Section ReferenceProperties.

Context {api : DiscordApi} {rapi : ReferenceApi}.

(** X17. In [MessageSegment.reference] a [MessageReference] is stored as
    it is and the other arguments are dropped.  Built from ids, the
    reference gets a [fail_if_not_exists] only when the argument is true:
    false gives the same segment as leaving it out; likewise a channel or
    guild id that counts as false gives the same segment as leaving it
    out. *)
Theorem reference_defaults :
  (forall r channel_id guild_id fail_if_not_exists,
      reference (source_MessageReference r) channel_id guild_id fail_if_not_exists =
      Ok (ReferenceSegment r))
  /\ (forall x channel_id guild_id,
         reference (source_id x) channel_id guild_id (Some false) =
         reference (source_id x) channel_id guild_id None)
  /\ (forall x v guild_id fail_if_not_exists,
         SnowflakeType_bool v = false ->
         reference (source_id x) (Some v) guild_id fail_if_not_exists =
         reference (source_id x) None guild_id fail_if_not_exists)
  /\ (forall x channel_id v fail_if_not_exists,
         SnowflakeType_bool v = false ->
         reference (source_id x) channel_id (Some v) fail_if_not_exists =
         reference (source_id x) channel_id None fail_if_not_exists).
Proof.
  repeat split; intros; unfold reference, Snowflake_or_UNSET;
    repeat match goal with H : SnowflakeType_bool _ = false |- _ => rewrite H end;
    reflexivity.
Qed.

End ReferenceProperties.

(** ** Validation *)

Lemma segment_class_eqb_eq (a b : segment_class) : segment_class_eqb a b = true <-> a = b.
Proof. destruct a, b; cbn; split; intro H; (reflexivity || discriminate H). Qed.

Lemma dict_get_SEGMENT_TYPE_MAP (key : str) (c : segment_class) :
  dict_get key SEGMENT_TYPE_MAP = Some c <-> key = tag_of c.
Proof.
  split.
  - unfold SEGMENT_TYPE_MAP. cbn [dict_get].
    repeat (match goal with
            | |- context [str_eqb ?k key] =>
                let E := fresh "E" in
                destruct (str_eqb k key) eqn:E;
                [apply str_eqb_eq in E; subst key; intros [= <-]; reflexivity|]
            end).
    discriminate.
  - intros ->. now destruct c.
Qed.

(** X18. [SEGMENT_TYPE_MAP] and the segment classes agree: the [type] of
    every segment the factories build is a key of the map and stands for
    the class of that segment, and the map pairs the twelve type tags with
    the twelve classes one to one. *)
Theorem segment_type_registered :
  (forall (api : DiscordApi) (seg : MessageSegment),
      dict_get (type seg) SEGMENT_TYPE_MAP = Some (class_of seg))
  /\ (forall (key : str) (c : segment_class),
         dict_get key SEGMENT_TYPE_MAP = Some c <-> key = tag_of c)
  /\ (forall (api : DiscordApi) (seg seg' : MessageSegment),
         type seg = type seg' <-> class_of seg = class_of seg').
Proof.
  split; [|split].
  - intros api seg. now destruct seg.
  - apply dict_get_SEGMENT_TYPE_MAP.
  - intros api seg seg'. split.
    + destruct seg, seg'; cbn; intro H; (reflexivity || discriminate H).
    + destruct seg, seg'; cbn; intro H; (reflexivity || discriminate H).
Qed.

Section ValidateProperties.

Variable type_validate_python : segment_class -> object -> outcome object.

(** X19. [MessageSegment._validate] called on a concrete segment class
    (directly for the classes that do not override it, through [super()]
    for the others) returns in two cases only: on an instance of that very class, which it returns as it
    is, and on a dictionary whose ["type"] is the tag of the class, for
    which it builds an instance from the tag and the entry ["data"], taken
    as the empty dictionary when missing, without looking into it.  An
    instance of another segment class, a dictionary with another type or
    none, and every other value are refused. *)
Theorem validate_subclass (c : segment_class) (value v : object) :
  _validate type_validate_python (subclass c) value = Returns v <->
  (exists type data, value = object_segment c type data /\ v = value)
  \/ (exists items,
         value = object_dict items
         /\ dict_get (py "type") items = Some (object_str (tag_of c))
         /\ v = object_segment c (object_str (tag_of c))
                  match dict_get (py "data") items with
                  | Some data => data
                  | None => object_dict []
                  end).
Proof.
  split.
  - unfold _validate.
    destruct value as [s|items|c' ty data|tag|tag]; cbn [isinstance]; try discriminate.
    + destruct (dict_get (py "type") items) as [[key| | | |]|] eqn:Etype; try discriminate.
      destruct (dict_get key SEGMENT_TYPE_MAP) as [segment_type|] eqn:Emap; [|discriminate].
      destruct (segment_class_eqb c segment_type) eqn:Ec; [|discriminate].
      apply segment_class_eqb_eq in Ec. subst segment_type.
      apply dict_get_SEGMENT_TYPE_MAP in Emap. subst key.
      intros [= <-]. right. exists items. repeat split. exact Etype.
    + destruct (segment_class_eqb c' c) eqn:Ec; [|discriminate].
      apply segment_class_eqb_eq in Ec. subst c'.
      intros [= <-]. left. now exists ty, data.
  - intros [(ty & data & -> & ->)|(items & -> & Htype & ->)]; unfold _validate; cbn [isinstance].
    + now rewrite (proj2 (segment_class_eqb_eq c c) eq_refl).
    + rewrite Htype.
      rewrite (proj2 (dict_get_SEGMENT_TYPE_MAP (tag_of c) c) eq_refl).
      now rewrite (proj2 (segment_class_eqb_eq c c) eq_refl).
Qed.

End ValidateProperties.

(** ** Closed instances *)

#[local] Existing Instance sample_api.

(** The failing input of C1: ten digits and no style. *)
Lemma construct_timestamp_without_style_witness :
  isdigit (py "1700000000") = true
  /\ _construct (py "<t:1700000000>") = Ok [TextSegment (py "<t:1700000000>")].
Proof.
  split; [reflexivity|].
  exact (@construct_timestamp_without_style sample_api (py "1700000000") eq_refl).
Defined.


Lemma sample_message_reads_back : Forall reads_back sample_message.
Proof.
  unfold sample_message.
  repeat (apply Forall_cons; [|]); try apply Forall_nil; simpl;
    unfold id_reads_back; repeat split; try reflexivity; try discriminate;
    try (left; reflexivity).
  exists Sample.RelativeTime. repeat split. discriminate.
Defined.

Lemma sample_literal_message_reads_back : Forall reads_back sample_literal_message.
Proof.
  unfold sample_literal_message.
  repeat (apply Forall_cons; [|]); try apply Forall_nil; simpl;
    unfold id_reads_back; repeat split; try reflexivity; try discriminate;
    try (left; reflexivity).
  - right. exists (py ":"), (py "bad"). repeat split.
  - right. exists (py "t:"), (py "1:R:x"). repeat split.
Defined.

(** Every kind that reads back; and texts that hold [<]: in a comparison,
    in an unfinished markup, and as markups that fall back. *)
Lemma construct_extract_content_witness :
  (Forall reads_back sample_message /\ no_adjacent_plain_text sample_message
   /\ extract_content sample_message = py "hi <@42><a:smile:7>!<t:1700000000:R><@&1><#2><::>"
   /\ _construct (extract_content sample_message) = Ok sample_message)
  /\ (Forall reads_back sample_literal_message
      /\ no_adjacent_plain_text sample_literal_message
      /\ extract_content sample_literal_message
         = py "1 < 2, a<b <@42><:bad> and <t:1:R:x><:>s:7>tail <:x"
      /\ _construct (extract_content sample_literal_message) = Ok sample_literal_message).
Proof.
  assert (H1 : no_adjacent_plain_text sample_message) by (simpl; repeat split).
  assert (H2 : no_adjacent_plain_text sample_literal_message) by (simpl; repeat split).
  split.
  - split; [exact sample_message_reads_back|].
    split; [exact H1|]. split; [reflexivity|].
    exact (@construct_extract_content sample_api sample_message
             sample_message_reads_back H1).
  - split; [exact sample_literal_message_reads_back|].
    split; [exact H2|]. split; [reflexivity|].
    exact (@construct_extract_content sample_api sample_literal_message
             sample_literal_message_reads_back H2).
Defined.

(** Two reference segments: the payload of the second is the value; a
    message without one has no key. *)
Lemma parse_message_reference_last_witness :
  message_reference
    (parse_message
       (input_Message
          ([ReferenceSegment (1%N : @MessageReference sample_api); TextSegment (py "hi")]
           ++ ReferenceSegment (2%N : @MessageReference sample_api)
              :: [TextSegment (py "!")])))
  = Some 2%N
  /\ message_reference (parse_message (input_Message [TextSegment (py "!")])) = None.
Proof.
  exact (@parse_message_reference_last sample_api
           [ReferenceSegment (1%N : @MessageReference sample_api); TextSegment (py "hi")]
           [TextSegment (py "!")] 2%N eq_refl).
Defined.

(** The failing input of C5: one attachment segment made from a file name
    alone.  [attachments] holds its metadata and [files] is there, empty. *)
Lemma parse_message_attachments_files_witness :
  attachments
    (parse_message
       (input_Message [AttachmentSegment (mkAttachmentSend (py "a.png") None) None]))
  = Some [mkAttachmentSend (py "a.png") None]
  /\ files
       (parse_message
          (input_Message [AttachmentSegment (mkAttachmentSend (py "a.png") None) None]))
     = Some [].
Proof.
  destruct (@parse_message_attachments_files sample_api
              [AttachmentSegment (mkAttachmentSend (py "a.png") None) None])
    as (Ha & _ & Hbug).
  split; [exact Ha|]. apply Hbug; [discriminate|reflexivity].
Defined.

(** With ids printed in decimal the example of C6 reads
    ["@everyone" + "hi " + "<@42>"]. *)
Example extract_content_everyone_hi_42 :
  extract_content [mention_everyone; text (py "hi "); mention_user 42%N] =
  py "@everyone" ++ py "hi " ++ py "<@42>".
Proof. reflexivity. Qed.

(** In the sample instance [<@abc>] raises, and so does a style that is not
    in the enumeration. *)
Example construct_raises_on_bad_id :
  _construct (py "<@abc>") = Raise ValueError
  /\ _construct (py "<t:1:zz>") = Raise ValueError.
Proof. split; reflexivity. Qed.


(** C3 as stated fails whatever the interface: [@everyone] is no markup of
    the pattern, so a mention_everyone segment comes back as text. *)
Lemma roundtrip_fails_on_mention_everyone :
  ~ exists api : DiscordApi,
      forall m : Message,
        forallb is_textual m = true -> _construct (extract_content m) = Ok m.
Proof.
  intros [api H].
  specialize (H [MentionEveryoneSegment] eq_refl).
  cbn in H. discriminate H.
Qed.

(** Whatever the interface, a message whose only attachment segment
    carries no file is serialized with the key [files] present, as the
    empty list. *)
Lemma files_present_without_bytes :
  ~ exists api : DiscordApi,
      forall m : Message,
        (forall seg, In seg m -> data_file seg = None) ->
        files (parse_message (input_Message m)) = None.
Proof.
  intros [api H].
  specialize (H [AttachmentSegment (mkAttachmentSend (py "a.png") None) None]).
  assert (Hnone : Some (@nil File) = None); [|discriminate Hnone].
  apply H. intros seg [<-|[]]. reflexivity.
Qed.

(** ** Closed instances of the further properties *)



Lemma construct_mentions_witness :
  _construct (py "<@!42>") = Ok [MentionUserSegment 42%N]
  /\ _construct (py "<@&42>") = Ok [MentionRoleSegment 42%N]
  /\ _construct (py "<#42>") = Ok [MentionChannelSegment 42%N]
  /\ (free_of (py "!&") (firstn 1 (py "42")) = true ->
      _construct (py "<@42>") = Ok [MentionUserSegment 42%N]).
Proof.
  refine (@construct_mentions sample_api (py "42") _ eq_refl). discriminate.
Defined.

Lemma construct_custom_emoji_witness :
  _construct (py "<:smile:7>") = Ok [CustomEmojiSegment (py "smile") (py "7") (Some false)]
  /\ _construct (py "<a:smile:7>") = Ok [CustomEmojiSegment (py "smile") (py "7") (Some true)].
Proof.
  exact (@construct_custom_emoji sample_api (py "smile") (py "7") eq_refl eq_refl).
Defined.


Lemma construct_kinds_witness :
  _construct (py "hi <@42><t:5:R><a:x:1><t:9>") =
  Ok [TextSegment (py "hi "); MentionUserSegment 42%N;
      TimestampSegment 5 (Some Sample.RelativeTime);
      CustomEmojiSegment (py "x") (py "1") (Some true); TextSegment (py "<t:9>")]
  /\ forallb tokenizer_kind
       [TextSegment (py "hi "); MentionUserSegment 42%N;
        TimestampSegment 5 (Some Sample.RelativeTime);
        CustomEmojiSegment (py "x") (py "1") (Some true); TextSegment (py "<t:9>")] = true.
Proof.
  split; [reflexivity|].
  exact (@construct_kinds sample_api (py "hi <@42><t:5:R><a:x:1><t:9>") _ eq_refl).
Defined.

(** The sample [unescape] leaves a text without backslash as it is. *)
Lemma sample_unescape_plain (s : str) :
  free_of (py "\") s = true -> Sample.unescape_sentinels s = s.
Proof.
  induction s as [|c s IH]; [reflexivity|].
  rewrite free_of_cons, andb_true_iff, negb_true_iff. simpl existsb.
  rewrite orb_false_r. intros [Hc Hs].
  destruct s as [|d s]; [reflexivity|].
  cbn [Sample.unescape_sentinels]. rewrite Hc. cbn [andb]. f_equal. exact (IH Hs).
Defined.

Lemma free_of_slice (chars s : str) (a b : nat) :
  free_of chars s = true -> free_of chars (slice s a b) = true.
Proof.
  intro H. unfold free_of, slice in *.
  assert (Hskip : forall (p : ascii -> bool) n l,
             forallb p l = true -> forallb p (skipn n l) = true).
  { intros p n. induction n as [|n IHn]; intros [|x l] Hl; auto.
    cbn in Hl |- *. apply andb_true_iff in Hl as [_ Hl]. now apply IHn. }
  assert (Hfirst : forall (p : ascii -> bool) n l,
             forallb p l = true -> forallb p (firstn n l) = true).
  { intros p n. induction n as [|n IHn]; intros [|x l] Hl; auto.
    cbn in Hl |- *. apply andb_true_iff in Hl as [Hx Hl]. now rewrite Hx, IHn. }
  now apply Hfirst, Hskip.
Defined.

Lemma construct_renders_back_witness :
  forallb emoji_or_malformed (finditer (py "a<:x:1>b<t:abc>c<a:y:2><:bad>")) = true
  /\ (forall a b,
         unescape (slice (py "a<:x:1>b<t:abc>c<a:y:2><:bad>") a b) =
         slice (py "a<:x:1>b<t:abc>c<a:y:2><:bad>") a b)
  /\ exists segs,
       _construct (py "a<:x:1>b<t:abc>c<a:y:2><:bad>") = Ok segs
       /\ extract_content segs = py "a<:x:1>b<t:abc>c<a:y:2><:bad>".
Proof.
  assert (Hfix : forall a b,
             @unescape sample_api (slice (py "a<:x:1>b<t:abc>c<a:y:2><:bad>") a b) =
             slice (py "a<:x:1>b<t:abc>c<a:y:2><:bad>") a b).
  { intros a b. apply sample_unescape_plain, free_of_slice. reflexivity. }
  split; [reflexivity|]. split; [exact Hfix|].
  exact (@construct_renders_back sample_api (py "a<:x:1>b<t:abc>c<a:y:2><:bad>") eq_refl Hfix).
Defined.

Lemma parse_message_from_guild_message_witness :
  exists m,
    from_guild_message sample_event = Ok m
    /\ let p := parse_message (input_Message m) in
       embeds p = Some [py "rich"]
       /\ components p = Some [ActionRow [Button (py "ok")]; TextInput (py "name")]
       /\ attachments p =
          Some [mkAttachmentSend (py "a.png") (Some (py "a picture"));
                mkAttachmentSend (py "b.txt") None]
       /\ files p = Some []
       /\ message_reference p = None
       /\ sticker_ids p = None.
Proof.
  eexists. split; [reflexivity|].
  exact (@parse_message_from_guild_message sample_api sample_event _ eq_refl).
Defined.

Lemma from_guild_message_mention_everyone_witness :
  exists m,
    from_guild_message sample_event = Ok m
    /\ exists rest, m = [MentionEveryoneSegment] ++ rest /\ ~ In MentionEveryoneSegment rest.
Proof.
  eexists. split; [reflexivity|].
  exact (@from_guild_message_mention_everyone sample_api sample_event _ eq_refl).
Defined.

Lemma attachment_file_matches_witness :
  exists seg a f,
    attachment (source_str (py "a.png")) None (Some [Byte.x01; Byte.x02]) = Ok seg
    /\ seg = AttachmentSegment a f
    /\ (forall x, f = Some x -> File_filename x = AttachmentSend_filename a)
    /\ (f = None <-> Some [Byte.x01; Byte.x02] = None).
Proof.
  eexists.
  destruct (@attachment_file_matches sample_api (source_str (py "a.png")) None
              (Some [Byte.x01; Byte.x02]) _ eq_refl) as (a & f & H).
  exists a, f. split; [reflexivity|exact H].
Defined.

Lemma construct_timestamp_with_style_witness :
  _construct (py "<t:" ++ py "1700000000" ++ py ":" ++ py "R" ++ py ">") =
  Ok [TimestampSegment 1700000000 (Some Sample.RelativeTime)].
Proof.
  exact (@construct_timestamp_with_style sample_api (py "1700000000") (py "R") 1700000000
           Sample.RelativeTime eq_refl eq_refl eq_refl eq_refl).
Defined.
